(** * Alloy blend optimizer: the LP builder and the composition calculator

    A shallow embedding of [AlloyOptimizer.optimize_alloy] and
    [AlloyOptimizer.calculate_final_composition] of
    [aluminum_mix_optimizer.py].

    Numbers.  The program computes with Python floats; here every number is
    an exact rational ([Q]), compared with [==].  The statements below are
    therefore the exact-arithmetic reading of the program: rounding and the
    solver's tolerances are left out.

    Effects.  The two methods are written in a small state-and-exception
    monad.  The state holds the objects the method can reach and mutate: the
    caller's arguments and the lists the method creates and updates in
    place.  Names bound once to immutable values are [let]s.

    The solver.  [linprog] is a library function; it is a parameter of
    [optimize_alloy] here, any function from a linear program to a result
    or a raised exception.  Statements about what the method returns for a
    feasible or an infeasible program assume of it only what they name:
    [solver_sound], [solver_complete_on]. *)

From Stdlib Require Import String.
From Stdlib Require Import QArith Qabs Lqa List Lia Bool Arith.
From Stdlib Require Import Sorting.Sorted Sorting.Permutation.
Import ListNotations.

Local Open Scope string_scope.
Local Open Scope list_scope.
Local Open Scope Q_scope.

(** ** Exceptions, outcomes and the monad *)

Inductive exn : Type :=
| IndexError
| ZeroDivisionError
| Exception (msg : string).

(** [str(e)] *)
Definition str (e : exn) : string :=
  match e with
  | IndexError => "list index out of range"
  | ZeroDivisionError => "division by zero"
  | Exception msg => msg
  end.

Inductive outcome (A : Type) : Type :=
| Return (a : A)
| Raise (e : exn).

Arguments Return {A} a.
Arguments Raise {A} e.

Definition M (S A : Type) : Type := S -> outcome A * S.

Definition ret {S A} (a : A) : M S A := fun s => (Return a, s).

Definition raise {S A} (e : exn) : M S A := fun s => (Raise e, s).

Definition bind {S A B} (m : M S A) (k : A -> M S B) : M S B :=
  fun s =>
    match m s with
    | (Return a, s') => k a s'
    | (Raise e, s') => (Raise e, s')
    end.

Definition read {S A} (f : S -> A) : M S A := fun s => (Return (f s), s).

Definition write {S} (f : S -> S) : M S unit := fun s => (Return tt, f s).

(** A call of a function that does not touch the state and may raise. *)
Definition call {S A B} (f : A -> outcome B) (a : A) : M S B := fun s => (f a, s).

(** [try: body  except Exception as e: handler e] *)
Definition try_except {S A} (body : M S A) (handler : exn -> M S A) : M S A :=
  fun s =>
    match body s with
    | (Return a, s') => (Return a, s')
    | (Raise e, s') => handler e s'
    end.

Declare Scope monad_scope.
Delimit Scope monad_scope with monad.

Notation "x <- m ;; k" := (bind m (fun x => k))
  (at level 61, m at next level, right associativity) : monad_scope.
Notation "' pat <- m ;; k" := (bind m (fun x => match x with pat => k end))
  (at level 61, pat pattern, m at next level, right associativity) : monad_scope.
Notation "m ;; k" := (bind m (fun _ => k))
  (at level 61, right associativity) : monad_scope.

Local Open Scope monad_scope.

(** [for x in xs: body x] *)
Fixpoint for_each {S X} (xs : list X) (body : X -> M S unit) : M S unit :=
  match xs with
  | [] => ret tt
  | x :: rest => body x ;; for_each rest body
  end.

(** ** Python list helpers *)

(** [enumerate(xs)] *)
Definition enumerate {X} (xs : list X) : list (nat * X) :=
  combine (seq 0 (length xs)) xs.

(** [xs[i] = v]: an index past the end raises [IndexError]. *)
Fixpoint setitem {X} (xs : list X) (i : nat) (v : X) : option (list X) :=
  match xs, i with
  | [], _ => None
  | _ :: rest, O => Some (v :: rest)
  | x :: rest, S j => option_map (cons x) (setitem rest j v)
  end.

(** [sum(xs)] *)
Definition sum (xs : list Q) : Q := fold_left Qplus xs 0.

(** [xs.sort(key=key)]: ascending by key and stable, as the language
    guarantees for [list.sort].  An element goes in front of the first
    later element whose key is not smaller. *)
Fixpoint insert_by {X} (key : X -> Q) (x : X) (l : list X) : list X :=
  match l with
  | [] => [x]
  | y :: rest =>
      if Qle_bool (key x) (key y) then x :: y :: rest
      else y :: insert_by key x rest
  end.

Fixpoint sort_by {X} (key : X -> Q) (l : list X) : list X :=
  match l with
  | [] => []
  | x :: rest => insert_by key x (sort_by key rest)
  end.

(** ** Data model *)

(** [self.elements = ['Al', 'Cu', 'Mg', 'Zn']] *)
Inductive element : Type := Al | Cu | Mg | Zn.

Definition elements : list element := [Al; Cu; Mg; Zn].

Definition element_eqb (a b : element) : bool :=
  match a, b with
  | Al, Al | Cu, Cu | Mg, Mg | Zn, Zn => true
  | _, _ => false
  end.

(** A material record as [add_material] builds it. *)
Record Material : Type := mkMaterial {
  id : nat;
  name : string;
  element_content : element -> Q;
  price : Q;
  stock : Q
}.

(** [order_requirements] as [main] builds it; its ['element_content'] is
    [target_content] here. *)
Record Order : Type := mkOrder {
  total_weight : Q;
  target_content : element -> Q
}.

(** The arguments of [linprog]. *)
Module LP.
Record t : Type := mk {
  c : list Q;
  A_ub : list (list Q);
  b_ub : list Q;
  A_eq : list (list Q);
  b_eq : list Q;
  bounds : list (Q * option Q)
}.
End LP.

(** What [linprog] returns: the fields of its result the program reads. *)
Module OptimizeResult.
Record t : Type := mk {
  success : bool;
  x : list Q;
  fun_ : Q;
  message : string
}.
End OptimizeResult.

(** The dictionary [optimize_alloy] returns: four keys on success, two on
    failure. *)
Inductive Result : Type :=
| Success (total_cost : Q) (material_weights : list Q) (message : string)
| Failure (message : string).

Definition success (r : Result) : bool :=
  match r with
  | Success _ _ _ => true
  | Failure _ => false
  end.

(** ** The state of [optimize_alloy] *)

Module Env.
Record t : Type := mk {
  materials_data : list Material;
  order_requirements : Order;
  A_eq : list (list Q);
  b_eq : list Q;
  A_ub : list (list Q);
  b_ub : list Q;
  stocks : list (nat * Q);
  constraint : list Q
}.

Definition set_A_eq (f : list (list Q) -> list (list Q)) (s : t) : t :=
  mk (materials_data s) (order_requirements s) (f (A_eq s)) (b_eq s)
     (A_ub s) (b_ub s) (stocks s) (constraint s).

Definition set_b_eq (f : list Q -> list Q) (s : t) : t :=
  mk (materials_data s) (order_requirements s) (A_eq s) (f (b_eq s))
     (A_ub s) (b_ub s) (stocks s) (constraint s).

Definition set_A_ub (f : list (list Q) -> list (list Q)) (s : t) : t :=
  mk (materials_data s) (order_requirements s) (A_eq s) (b_eq s)
     (f (A_ub s)) (b_ub s) (stocks s) (constraint s).

Definition set_b_ub (f : list Q -> list Q) (s : t) : t :=
  mk (materials_data s) (order_requirements s) (A_eq s) (b_eq s)
     (A_ub s) (f (b_ub s)) (stocks s) (constraint s).

Definition set_stocks (f : list (nat * Q) -> list (nat * Q)) (s : t) : t :=
  mk (materials_data s) (order_requirements s) (A_eq s) (b_eq s)
     (A_ub s) (b_ub s) (f (stocks s)) (constraint s).

Definition set_constraint (f : list Q -> list Q) (s : t) : t :=
  mk (materials_data s) (order_requirements s) (A_eq s) (b_eq s)
     (A_ub s) (b_ub s) (stocks s) (f (constraint s)).

(** The state on entry: the two arguments, no local bound yet. *)
Definition init (materials : list Material) (order : Order) : t :=
  mk materials order [] [] [] [] [] [].
End Env.

(** [xs.append(v)] on a list of the state *)
Definition append {X} (v : X) (xs : list X) : list X := xs ++ [v].

(** [constraint[idx] = v] *)
Definition constraint_setitem (idx : nat) (v : Q) : M Env.t unit :=
  fun s =>
    match setitem (Env.constraint s) idx v with
    | Some l => (Return tt, Env.set_constraint (fun _ => l) s)
    | None => (Raise IndexError, s)
    end.

(** ** [optimize_alloy], lines 75 to 124: the linear program *)

Definition build_problem (max_ratio_constraint : bool) : M Env.t LP.t :=
  materials <- read Env.materials_data ;;
  let n_materials := length materials in
  materials <- read Env.materials_data ;;
  let c := map price materials in
  write (Env.set_A_eq (fun _ => [])) ;;
  write (Env.set_b_eq (fun _ => [])) ;;
  write (Env.set_A_ub (fun _ => [])) ;;
  write (Env.set_b_ub (fun _ => [])) ;;
  order <- read Env.order_requirements ;;
  let total_w := total_weight order in
  write (Env.set_A_eq (append (repeat 1 n_materials))) ;;
  order <- read Env.order_requirements ;;
  write (Env.set_b_eq (append (total_weight order))) ;;
  for_each elements (fun element =>
    order <- read Env.order_requirements ;;
    let target_min := (target_content order element - 0.5) / 100 in
    order <- read Env.order_requirements ;;
    let target_max := (target_content order element + 0.5) / 100 in
    materials <- read Env.materials_data ;;
    let coeffs :=
      map (fun material => element_content material element / 100) materials in
    write (Env.set_A_ub (append (map (fun c => - c) coeffs))) ;;
    write (Env.set_b_ub (append (- target_min * total_w))) ;;
    write (Env.set_A_ub (append coeffs)) ;;
    write (Env.set_b_ub (append (target_max * total_w)))) ;;
  materials <- read Env.materials_data ;;
  for_each (enumerate materials) (fun '(i, material) =>
    write (Env.set_A_ub
             (append (repeat 0 i ++ [1] ++ repeat 0 (n_materials - 1 - i)))) ;;
    write (Env.set_b_ub (append (stock material)))) ;;
  (if max_ratio_constraint then
     materials <- read Env.materials_data ;;
     write (Env.set_stocks (fun _ =>
       map (fun '(i, material) => (i, stock material)) (enumerate materials))) ;;
     write (Env.set_stocks (sort_by snd)) ;;
     stocks <- read Env.stocks ;;
     if (2 <=? length stocks)%nat then
       stocks <- read Env.stocks ;;
       for_each (firstn 2 stocks) (fun '(idx, _) =>
         write (Env.set_constraint (fun _ => repeat 0 n_materials)) ;;
         constraint_setitem idx 1 ;;
         constraint <- read Env.constraint ;;
         write (Env.set_A_ub (append constraint)) ;;
         order <- read Env.order_requirements ;;
         write (Env.set_b_ub (append (total_weight order * 0.3))))
     else ret tt
   else ret tt) ;;
  let bounds := map (fun _ => (0, @None Q)) (seq 0 n_materials) in
  A_ub <- read Env.A_ub ;;
  b_ub <- read Env.b_ub ;;
  A_eq <- read Env.A_eq ;;
  b_eq <- read Env.b_eq ;;
  ret (LP.mk c A_ub b_ub A_eq b_eq bounds).

(** ** [optimize_alloy], lines 126 to 148: the solver call

    [linprog] is scipy's; the program only sees what it returns or raises. *)

Definition optimize_alloy (linprog : LP.t -> outcome OptimizeResult.t)
    (max_ratio_constraint : bool) : M Env.t Result :=
  lp <- build_problem max_ratio_constraint ;;
  try_except
    (result <- call linprog lp ;;
     if OptimizeResult.success result then
       ret (Success (OptimizeResult.fun_ result) (OptimizeResult.x result)
                    "优化成功")
     else
       ret (Failure ("无法找到可行解: " ++ OptimizeResult.message result)%string))
    (fun e => ret (Failure ("求解过程中出错: " ++ str e)%string)).

(** The default of the keyword argument [max_ratio_constraint]. *)
Definition max_ratio_constraint_default : bool := true.

(** ** [calculate_final_composition] *)

(** A dictionary keyed by elements, in insertion order. *)
Definition dict : Type := list (element * Q).

(** [d[k]] *)
Fixpoint dict_get (d : dict) (k : element) : option Q :=
  match d with
  | [] => None
  | (k', v) :: rest => if element_eqb k' k then Some v else dict_get rest k
  end.

(** [d[k] = v] *)
Fixpoint dict_set (d : dict) (k : element) (v : Q) : dict :=
  match d with
  | [] => [(k, v)]
  | (k', v') :: rest =>
      if element_eqb k' k then (k, v) :: rest else (k', v') :: dict_set rest k v
  end.

Module CEnv.
Record t : Type := mk {
  materials_data : list Material;
  weights : list Q;
  final_comp : dict
}.

Definition set_final_comp (f : dict -> dict) (s : t) : t :=
  mk (materials_data s) (weights s) (f (final_comp s)).

Definition init (materials : list Material) (weights : list Q) : t :=
  mk materials weights [].
End CEnv.

(** [xs[i]] *)
Definition getitem {S X} (xs : list X) (i : nat) : M S X :=
  match nth_error xs i with
  | Some v => ret v
  | None => raise IndexError
  end.

(** [final_comp[k]]; a missing key raises [KeyError], an [Exception]. *)
Definition final_comp_getitem (k : element) : M CEnv.t Q :=
  d <- read CEnv.final_comp ;;
  match dict_get d k with
  | Some v => ret v
  | None => raise (Exception "KeyError")
  end.

(** [final_comp[k] = v] *)
Definition final_comp_setitem (k : element) (v : Q) : M CEnv.t unit :=
  write (CEnv.set_final_comp (fun d => dict_set d k v)).

(** [a / b] with a divisor that is not a literal *)
Definition divide {S} (a b : Q) : M S Q :=
  if Qeq_bool b 0 then raise ZeroDivisionError else ret (a / b).

Definition calculate_final_composition : M CEnv.t (option dict) :=
  weights <- read CEnv.weights ;;
  let total_weight := sum weights in
  if Qeq_bool total_weight 0 then ret None
  else
    write (CEnv.set_final_comp (fun _ =>
      map (fun element => (element, 0)) elements)) ;;
    materials <- read CEnv.materials_data ;;
    for_each (enumerate materials) (fun '(i, material) =>
      for_each elements (fun element =>
        weights <- read CEnv.weights ;;
        w <- getitem weights i ;;
        let element_weight := w * element_content material element / 100 in
        v <- final_comp_getitem element ;;
        final_comp_setitem element (v + element_weight))) ;;
    final_comp <- read CEnv.final_comp ;;
    for_each (map fst final_comp) (fun element =>
      v <- final_comp_getitem element ;;
      q <- divide v total_weight ;;
      final_comp_setitem element (q * 100)) ;;
    final_comp <- read CEnv.final_comp ;;
    ret (Some final_comp).

(** ** Linear programs: what the solver is asked *)

(** The product of a row of coefficients with the vector of variables. *)
Fixpoint dot (a x : list Q) : Q :=
  match a, x with
  | a0 :: a', x0 :: x' => a0 * x0 + dot a' x'
  | _, _ => 0
  end.

(** A variable within its pair of bounds; [None] is no bound. *)
Definition within (bd : Q * option Q) (v : Q) : Prop :=
  fst bd <= v /\ match snd bd with Some u => v <= u | None => True end.

(** [x] satisfies every constraint of [lp]. *)
Definition feasible (lp : LP.t) (x : list Q) : Prop :=
  length x = length (LP.c lp) /\
  Forall2 (fun row b => dot row x == b) (LP.A_eq lp) (LP.b_eq lp) /\
  Forall2 (fun row b => dot row x <= b) (LP.A_ub lp) (LP.b_ub lp) /\
  Forall2 within (LP.bounds lp) x.

(** The solver is a parameter of the model: [linprog] is scipy's, a black
    box that solves
    min c.x subject to A_eq x = b_eq, A_ub x <= b_ub and the bounds,
    and returns an optimal x or reports infeasibility.  A solver is sound
    when a result it marks successful is a point of the feasible set. *)
Definition solver_sound (linprog : LP.t -> outcome OptimizeResult.t) : Prop :=
  forall lp r,
    linprog lp = Return r ->
    OptimizeResult.success r = true ->
    feasible lp (OptimizeResult.x r).

(** A solver is complete on a program when it returns a successful result
    if the program has a feasible point.  (The programs built here have a
    bounded feasible set, so a feasible program has an optimum.) *)
Definition solver_complete_on (linprog : LP.t -> outcome OptimizeResult.t)
    (lp : LP.t) : Prop :=
  (exists x, feasible lp x) ->
  exists r, linprog lp = Return r /\ OptimizeResult.success r = true.

(** ** The rows of the program, in closed form

    What the loops of [build_problem] leave in [A_ub] and [b_ub]; the lemma
    [build_problem_run] below proves it. *)

(** [[0]*i + [1] + [0]*(n-1-i)] *)
Definition unit_row (n i : nat) : list Q :=
  repeat 0 i ++ [1] ++ repeat 0 (n - 1 - i).

Definition coeffs (materials : list Material) (e : element) : list Q :=
  map (fun material => element_content material e / 100) materials.

Definition band_rows (materials : list Material) : list (list Q) :=
  flat_map (fun e => [map (fun c => - c) (coeffs materials e); coeffs materials e])
           elements.

Definition band_rhs (order : Order) : list Q :=
  flat_map (fun e =>
              [- ((target_content order e - 0.5) / 100) * total_weight order;
               (target_content order e + 0.5) / 100 * total_weight order])
           elements.

(** [stocks] after [stocks.sort(key=lambda x: x[1])] *)
Definition sorted_stocks (materials : list Material) : list (nat * Q) :=
  sort_by snd (map (fun '(i, material) => (i, stock material)) (enumerate materials)).

(** The indices that get a cap row, in the order the rows are added. *)
Definition capped (materials : list Material) (max_ratio_constraint : bool)
  : list nat :=
  if max_ratio_constraint then
    if (2 <=? length (sorted_stocks materials))%nat
    then map fst (firstn 2 (sorted_stocks materials))
    else []
  else [].

Definition problem (materials : list Material) (order : Order)
    (max_ratio_constraint : bool) : LP.t :=
  let n := length materials in
  let caps := capped materials max_ratio_constraint in
  LP.mk (map price materials)
        (band_rows materials ++ map (unit_row n) (seq 0 n) ++ map (unit_row n) caps)
        (band_rhs order ++ map stock materials
           ++ map (fun _ => total_weight order * 0.3) caps)
        [repeat 1 n]
        [total_weight order]
        (map (fun _ => (0, @None Q)) (seq 0 n)).

(** The mass of element [e] in the blend, written from the formula:
    the sum over the lots of weight times content over 100. *)
Fixpoint element_mass (materials : list Material) (weights : list Q)
    (e : element) : Q :=
  match materials, weights with
  | material :: materials', w :: weights' =>
      w * element_content material e / 100 + element_mass materials' weights' e
  | _, _ => 0
  end.

(** The sum of a list, written by recursion. *)
Fixpoint total (xs : list Q) : Q :=
  match xs with
  | [] => 0
  | x :: rest => x + total rest
  end.

(** ** A small solver, for running the program on concrete inputs

    It tries the candidates it is given in turn and returns the first that
    satisfies every constraint; it reports failure when none does. *)

Fixpoint forall2b {X Y} (p : X -> Y -> bool) (xs : list X) (ys : list Y) : bool :=
  match xs, ys with
  | [], [] => true
  | x :: xs', y :: ys' => p x y && forall2b p xs' ys'
  | _, _ => false
  end.

Definition withinb (bd : Q * option Q) (v : Q) : bool :=
  Qle_bool (fst bd) v &&
  match snd bd with Some u => Qle_bool v u | None => true end.

Definition feasibleb (lp : LP.t) (x : list Q) : bool :=
  (length x =? length (LP.c lp))%nat &&
  forall2b (fun row b => Qeq_bool (dot row x) b) (LP.A_eq lp) (LP.b_eq lp) &&
  forall2b (fun row b => Qle_bool (dot row x) b) (LP.A_ub lp) (LP.b_ub lp) &&
  forall2b withinb (LP.bounds lp) x.

Definition candidate_solver (candidates : list (list Q)) (lp : LP.t)
  : outcome OptimizeResult.t :=
  match find (feasibleb lp) candidates with
  | Some x =>
      Return (OptimizeResult.mk true x (dot (LP.c lp) x)
                "Optimization terminated successfully.")
  | None =>
      Return (OptimizeResult.mk false [] 0 "The problem is infeasible.")
  end.

(** ** Concrete inputs *)

Definition content (al cu mg zn : Q) (e : element) : Q :=
  match e with Al => al | Cu => cu | Mg => mg | Zn => zn end.

(** The two lots and the order of the two-lot scenario. *)
Definition lot_A : Material := mkMaterial 1 "A" (content 97.5 0.1 1.0 1.0) 15 5000.
Definition lot_B : Material := mkMaterial 2 "B" (content 99.0 0.3 0.3 0.2) 18 5000.
Definition order_AB : Order := mkOrder 1000 (content 98 0.2 0.5 0.5).

(** One lot with ten units in stock, and an order for a hundred. *)
Definition lot_small : Material := mkMaterial 1 "A" (content 97.5 0.1 1.0 1.0) 15 10.
Definition order_100 : Order := mkOrder 100 (content 97.5 0.1 1.0 1.0).

(** Three lots, for a program with cap rows that has a solution. *)
Definition lot_C : Material := mkMaterial 3 "C" (content 98.0 0.1 0.4 1.2) 14.5 800.

(** [d] maps element [e] to a value within [tol] of [target]. *)
Definition within_band (d : dict) (order : Order) (tol : Q) : Prop :=
  forall e, exists v,
    dict_get d e = Some v /\ Qabs (v - target_content order e) <= tol.

(** The order a stable ascending sort by stock leaves indexed entries in:
    by stock, and by index among equal stocks. *)
Definition before (p q : nat * Q) : Prop :=
  snd p < snd q \/ (snd p == snd q /\ (fst p <= fst q)%nat).

(** The stock of lot [i]. *)
Definition stock_of (materials : list Material) (i : nat) : Q :=
  match nth_error materials i with
  | Some material => stock material
  | None => 0
  end.

(** Lot [i] comes before lot [j] when the lots are ranked by ascending
    stock, ties broken by the order of the input. *)
Definition ranks_before (materials : list Material) (i j : nat) : Prop :=
  stock_of materials i < stock_of materials j \/
  (stock_of materials i == stock_of materials j /\ (i < j)%nat).

(** What [optimize_alloy] makes of the solver's outcome. *)
Definition report (o : outcome OptimizeResult.t) : Result :=
  match o with
  | Return result =>
      if OptimizeResult.success result then
        Success (OptimizeResult.fun_ result) (OptimizeResult.x result) "优化成功"
      else Failure ("无法找到可行解: " ++ OptimizeResult.message result)%string
  | Raise e => Failure ("求解过程中出错: " ++ str e)%string
  end.

(** A computation leaves the part [proj] of the state as it found it,
    whatever it returns or raises. *)
Definition preserves {S A T} (proj : S -> T) (m : M S A) : Prop :=
  forall s, proj (snd (m s)) = proj s.

(** The arguments of [optimize_alloy], as one part of the state. *)
Definition arguments (s : Env.t) : list Material * Order :=
  (Env.materials_data s, Env.order_requirements s).

(** The arguments of [calculate_final_composition]. *)
Definition carguments (s : CEnv.t) : list Material * list Q :=
  (CEnv.materials_data s, CEnv.weights s).

(** A computation raises only exceptions that satisfy [P]. *)
Definition raises_only {S A} (P : exn -> Prop) (m : M S A) : Prop :=
  forall s e s', m s = (Raise e, s') -> P e.

(** The dictionary with value [acc e] under each element [e]. *)
Definition dict_of (acc : element -> Q) : dict :=
  map (fun e => (e, acc e)) elements.

(** The values of [final_comp] after the accumulation loop, from the
    values [acc] before it. *)
Fixpoint accumulate (materials : list Material) (weights : list Q)
    (acc : element -> Q) : element -> Q :=
  match materials, weights with
  | material :: materials', w :: weights' =>
      accumulate materials' weights'
        (fun e => acc e + w * element_content material e / 100)
  | _, _ => acc
  end.

(** ** [AlloyOptimizer.__init__]: the presets *)

Module Preset.
Record t : Type := mk {
  Al : Q;
  Cu : Q;
  Mg : Q;
  Zn : Q;
  price : Q;
  density : Q
}.
End Preset.

(** [self.material_presets], a dictionary in the order it is written. *)
Definition material_presets : list (string * Preset.t) :=
  [ ("易拉罐", Preset.mk 97.5 0.1 1.0 1.0 15.0 2.7);
    ("线缆铝芯", Preset.mk 99.0 0.3 0.3 0.2 18.0 2.7);
    ("建筑铝型材", Preset.mk 95.0 0.5 1.2 3.0 16.5 2.7);
    ("航空级铝废料", Preset.mk 90.0 2.0 5.0 2.5 25.0 2.8);
    ("汽车铝板", Preset.mk 93.0 0.8 1.5 4.5 17.0 2.7);
    ("铝合金轮毂", Preset.mk 92.0 0.5 2.0 5.0 19.0 2.8);
    ("电子外壳", Preset.mk 96.0 0.2 0.5 3.0 16.0 2.7);
    ("厨具铝材", Preset.mk 98.0 0.1 0.4 1.2 14.5 2.7);
    ("船舶铝材", Preset.mk 94.0 0.3 3.0 2.5 20.0 2.7);
    ("高铁铝材", Preset.mk 91.0 1.0 4.0 3.5 22.0 2.8);
    ("包装铝箔", Preset.mk 99.5 0.05 0.1 0.3 13.0 2.7);
    ("散热器铝材", Preset.mk 97.0 0.8 0.5 1.5 15.5 2.7);
    ("军工铝材", Preset.mk 89.0 2.5 6.0 2.0 28.0 2.8);
    ("建筑模板", Preset.mk 95.5 0.4 1.0 2.8 16.0 2.7);
    ("通用铝合金", Preset.mk 93.5 0.6 1.8 3.8 17.5 2.7) ].

(** ** The session: the inventory and what the page shows

    [st.session_state] holds the keys ['materials_list'] and
    ['next_material_id'] once [initialize_session_state] has run; a key that
    is not there is [None], and reading it raises [AttributeError].
    [st.success] and [st.error] add a message to what the page shows. *)

Inductive shown : Type :=
| st_success (text : string)
| st_error (text : string).

Module Session.
Record t : Type := mk {
  materials_list : option (list Material);
  next_material_id : option nat;
  messages : list shown
}.

Definition set_materials_list (l : list Material) (s : t) : t :=
  mk (Some l) (next_material_id s) (messages s).

Definition set_next_material_id (n : nat) (s : t) : t :=
  mk (materials_list s) (Some n) (messages s).

Definition show (m : shown) (s : t) : t :=
  mk (materials_list s) (next_material_id s) (messages s ++ [m]).

(** A session with no key set and nothing shown. *)
Definition fresh : t := mk None None [].
End Session.

(** [st.session_state.materials_list] *)
Definition get_materials_list : M Session.t (list Material) :=
  fun s =>
    match Session.materials_list s with
    | Some l => (Return l, s)
    | None => (Raise (Exception "AttributeError"), s)
    end.

(** [st.session_state.next_material_id] *)
Definition get_next_material_id : M Session.t nat :=
  fun s =>
    match Session.next_material_id s with
    | Some n => (Return n, s)
    | None => (Raise (Exception "AttributeError"), s)
    end.

Definition initialize_session_state : M Session.t unit :=
  has_list <- read (fun s =>
    match Session.materials_list s with Some _ => true | None => false end) ;;
  (if negb has_list then write (Session.set_materials_list []) else ret tt) ;;
  has_id <- read (fun s =>
    match Session.next_material_id s with Some _ => true | None => false end) ;;
  (if negb has_id then write (Session.set_next_material_id 1) else ret tt).

Definition is_material_already_added (material_type : string)
  : M Session.t bool :=
  materials <- get_materials_list ;;
  ret (existsb (fun material => String.eqb (name material) material_type)
               materials).

Definition add_material (material_type : string) (stock_kg custom_price : Q)
    (preset_data : Preset.t) : M Session.t bool :=
  next_id <- get_next_material_id ;;
  let new_material :=
    mkMaterial next_id material_type
      (content (Preset.Al preset_data) (Preset.Cu preset_data)
               (Preset.Mg preset_data) (Preset.Zn preset_data))
      custom_price stock_kg in
  materials <- get_materials_list ;;
  write (Session.set_materials_list (materials ++ [new_material])) ;;
  next_id <- get_next_material_id ;;
  write (Session.set_next_material_id (next_id + 1)) ;;
  write (Session.show (st_success ("✅ 已成功添加 " ++ material_type)%string)) ;;
  ret true.

Definition remove_material (material_id : nat) : M Session.t unit :=
  materials <- get_materials_list ;;
  let material_to_remove :=
    find (fun mat => (id mat =? material_id)%nat) materials in
  match material_to_remove with
  | Some found =>
      materials <- get_materials_list ;;
      write (Session.set_materials_list
               (filter (fun material => negb (id material =? material_id)%nat)
                       materials)) ;;
      write (Session.show (st_success ("✅ 已移除 " ++ name found)%string))
  | None =>
      write (Session.show (st_error "❌ 未找到要移除的材料"))
  end.

Definition get_available_material_types : M Session.t (list string) :=
  materials <- get_materials_list ;;
  let added_types := map name materials in
  ret (filter (fun mat_type => negb (existsb (String.eqb mat_type) added_types))
              (map fst material_presets)).

(** ** [validate_order_inputs]

    [fmt] stands for the format [{total_content:.1f}] of the last message. *)

(** [a > b] *)
Definition Qgt_bool (a b : Q) : bool := negb (Qle_bool a b).

Definition validate_order_inputs (fmt : Q -> string)
    (weight al_content cu_content mg_content zn_content : Q) : list string :=
  let errors := [] in
  let errors :=
    if Qle_bool weight 0 then errors ++ ["订单重量必须大于0"] else errors in
  let errors :=
    if negb (Qle_bool 85.0 al_content && Qle_bool al_content 99.9)
    then errors ++ ["铝含量必须在85.0%到99.9%之间"] else errors in
  let errors :=
    if negb (Qle_bool 0.0 cu_content && Qle_bool cu_content 10.0)
    then errors ++ ["铜含量必须在0.0%到10.0%之间"] else errors in
  let errors :=
    if negb (Qle_bool 0.0 mg_content && Qle_bool mg_content 10.0)
    then errors ++ ["镁含量必须在0.0%到10.0%之间"] else errors in
  let errors :=
    if negb (Qle_bool 0.0 zn_content && Qle_bool zn_content 10.0)
    then errors ++ ["锌含量必须在0.0%到10.0%之间"] else errors in
  let total_content := al_content + cu_content + mg_content + zn_content in
  let errors :=
    if Qgt_bool total_content 100.0
    then errors ++ [("元素总含量(" ++ fmt total_content ++ "%)不能超过100%")%string]
    else errors in
  errors.

(** The order [main] builds from the five inputs. *)
Definition order_of (weight al_content cu_content mg_content zn_content : Q)
  : Order :=
  mkOrder weight (content al_content cu_content mg_content zn_content).

(** No string occurs twice in [l]. *)
Fixpoint distinctb (l : list string) : bool :=
  match l with
  | [] => true
  | x :: rest => negb (existsb (String.eqb x) rest) && distinctb rest
  end.

(** ** What holds of a session between calls *)

(** Both keys are set, the ids in the inventory are distinct and all below
    the next id to hand out. *)
Definition session_ok (s : Session.t) : Prop :=
  exists l n,
    Session.materials_list s = Some l /\
    Session.next_material_id s = Some n /\
    NoDup (map id l) /\
    Forall (fun material => (id material < n)%nat) l.

(** A session with two lots of preset types, and a preset to add. *)
Definition session_two : Session.t :=
  Session.mk
    (Some [mkMaterial 1 "易拉罐" (content 97.5 0.1 1.0 1.0) 15 5000;
           mkMaterial 2 "线缆铝芯" (content 99.0 0.3 0.3 0.2) 18 5000])
    (Some 3%nat) [].

Definition preset_foil : Preset.t := Preset.mk 99.5 0.05 0.1 0.3 13.0 2.7.

(** An order larger than the two lots' stock, and one whose aluminium
    target no lot comes near. *)
Definition order_big : Order := mkOrder 20000 (content 98 0.2 0.5 0.5).
Definition order_low : Order := mkOrder 1000 (content 90 0.2 0.5 0.5).

(** ** Lists *)

Lemma setitem_repeat (n i : nat) :
  (i < n)%nat -> setitem (repeat 0 n) i 1 = Some (unit_row n i).
Proof.
  revert i. induction n as [|n IH]; intros i Hi; [lia|].
  destruct i as [|i]; cbn [repeat setitem].
  - unfold unit_row. cbn [repeat app].
    replace (S n - 1 - 0)%nat with n by lia. reflexivity.
  - rewrite IH by lia. unfold unit_row. cbn [repeat app option_map].
    replace (S n - 1 - S i)%nat with (n - 1 - i)%nat by lia. reflexivity.
Qed.



Lemma enumerate_length {X} (xs : list X) : length (enumerate xs) = length xs.
Proof.
  unfold enumerate. rewrite length_combine, length_seq. lia.
Qed.

Lemma map_fst_combine {X Y} (xs : list X) (ys : list Y) :
  length xs = length ys -> map fst (combine xs ys) = xs.
Proof.
  revert ys. induction xs as [|x xs IH]; intros [|y ys] H; cbn in *;
    try discriminate; [reflexivity|].
  f_equal. apply IH. lia.
Qed.


Lemma insert_by_perm {X} (key : X -> Q) (x : X) (l : list X) :
  Permutation (insert_by key x l) (x :: l).
Proof.
  induction l as [|y l IH]; cbn; [reflexivity|].
  destruct (Qle_bool (key x) (key y)); [reflexivity|].
  rewrite IH. apply perm_swap.
Qed.

Lemma sort_by_perm {X} (key : X -> Q) (l : list X) :
  Permutation (sort_by key l) l.
Proof.
  induction l as [|x l IH]; cbn; [reflexivity|].
  rewrite insert_by_perm. now constructor.
Qed.

Lemma sort_by_length {X} (key : X -> Q) (l : list X) :
  length (sort_by key l) = length l.
Proof. apply Permutation_length, sort_by_perm. Qed.

Lemma In_enumerate_from {X} (xs : list X) (k i : nat) (x : X) :
  In (i, x) (combine (seq k (length xs)) xs)
  <-> (k <= i)%nat /\ nth_error xs (i - k) = Some x.
Proof.
  revert k. induction xs as [|y xs IH]; intros k; cbn [length seq combine In].
  - split; [tauto|]. intros [_ H]. destruct (i - k)%nat; discriminate.
  - rewrite IH. split.
    + intros [E | [Hk Hn]].
      * inversion E; subst. rewrite Nat.sub_diag. split; [lia | reflexivity].
      * split; [lia|]. replace (i - k)%nat with (S (i - S k)) by lia. exact Hn.
    + intros [Hk Hn]. destruct (Nat.eq_dec k i) as [->|Hne].
      * rewrite Nat.sub_diag in Hn. cbn in Hn. left. congruence.
      * right. split; [lia|].
        replace (i - k)%nat with (S (i - S k)) in Hn by lia. exact Hn.
Qed.

Lemma In_enumerate {X} (xs : list X) (i : nat) (x : X) :
  In (i, x) (enumerate xs) <-> nth_error xs i = Some x.
Proof.
  unfold enumerate. rewrite In_enumerate_from, Nat.sub_0_r.
  split; [tauto | split; [lia | assumption]].
Qed.

(** ** The stable sort on the indexed stocks *)

Lemma insert_by_stable (x : nat * Q) (l : list (nat * Q)) :
  StronglySorted before l ->
  Forall (fun y => (fst x < fst y)%nat) l ->
  StronglySorted before (insert_by snd x l).
Proof.
  induction l as [|y l IH]; intros Hs Hlt; cbn.
  - repeat constructor.
  - inversion Hs as [|? ? Hs' Hy]; subst.
    inversion Hlt as [|? ? Hxy Hlt']; subst.
    destruct (Qle_bool (snd x) (snd y)) eqn:E.
    + apply Qle_bool_iff in E.
      constructor; [assumption|].
      assert (Hxy' : before x y).
      { destruct (Qlt_le_dec (snd x) (snd y)) as [L|G].
        - now left.
        - right. split; [apply Qle_antisym; assumption | lia]. }
      constructor; [assumption|].
      rewrite Forall_forall in *. intros z Hz.
      specialize (Hy z Hz). specialize (Hlt' z Hz).
      assert (Hle : snd y <= snd z).
      { destruct Hy as [L|[Q _]]; [now apply Qlt_le_weak | rewrite Q; apply Qle_refl]. }
      destruct (Qlt_le_dec (snd x) (snd z)) as [L|G].
      * now left.
      * right. split; [|lia]. apply Qle_antisym; [|assumption].
        eapply Qle_trans; eassumption.
    + assert (Hyx : snd y < snd x).
      { apply Qnot_le_lt. intros H. apply Qle_bool_iff in H. congruence. }
      constructor; [now apply IH|].
      rewrite Forall_forall in *. intros z Hz.
      apply (Permutation_in _ (insert_by_perm snd x l)) in Hz.
      destruct Hz as [<-|Hz]; [now left | now apply Hy].
Qed.

Lemma sort_indexed_stable {X} (f : X -> Q) (l : list X) (k : nat) :
  let entries := map (fun '(i, v) => (i, f v)) (combine (seq k (length l)) l) in
  StronglySorted before (sort_by snd entries) /\
  Forall (fun y => (k <= fst y)%nat) (sort_by snd entries).
Proof.
  revert k. induction l as [|v l IH]; intros k; cbn.
  - split; constructor.
  - destruct (IH (S k)) as [Hs Hk]. split.
    + apply insert_by_stable; [assumption|].
      cbn. eapply Forall_impl; [|exact Hk]. cbn. intros; lia.
    + rewrite Forall_forall in *. intros z Hz.
      apply (Permutation_in _ (insert_by_perm snd _ _)) in Hz.
      destruct Hz as [<-|Hz]; [cbn; lia|]. specialize (Hk z Hz). lia.
Qed.

Lemma sorted_stocks_sorted (materials : list Material) :
  StronglySorted before (sorted_stocks materials).
Proof. apply (sort_indexed_stable stock materials 0). Qed.

Lemma sorted_stocks_length (materials : list Material) :
  length (sorted_stocks materials) = length materials.
Proof.
  unfold sorted_stocks. now rewrite sort_by_length, length_map, enumerate_length.
Qed.

Lemma In_sorted_stocks (materials : list Material) (i : nat) (q : Q) :
  In (i, q) (sorted_stocks materials) <->
  exists material, nth_error materials i = Some material /\ q = stock material.
Proof.
  unfold sorted_stocks. split.
  - intros H. apply (Permutation_in _ (sort_by_perm snd _)) in H.
    apply in_map_iff in H. destruct H as [[j m] [E H]].
    inversion E; subst. apply In_enumerate in H. eauto.
  - intros [m [H ->]].
    apply (Permutation_in _ (Permutation_sym (sort_by_perm snd _))).
    apply in_map_iff. exists (i, m). split; [reflexivity|].
    now apply In_enumerate.
Qed.

Lemma sorted_stocks_index (materials : list Material) (p : nat * Q) :
  In p (sorted_stocks materials) -> (fst p < length materials)%nat.
Proof.
  destruct p as [i q]. intros H. apply In_sorted_stocks in H.
  destruct H as [m [H _]]. cbn. apply nth_error_Some. congruence.
Qed.

Lemma sorted_stocks_NoDup (materials : list Material) :
  NoDup (map fst (sorted_stocks materials)).
Proof.
  unfold sorted_stocks.
  eapply Permutation_NoDup.
  - apply Permutation_map, Permutation_sym, sort_by_perm.
  - rewrite map_map. unfold enumerate.
    rewrite (map_ext _ fst) by (intros [? ?]; reflexivity).
    rewrite map_fst_combine by now rewrite length_seq.
    apply seq_NoDup.
Qed.

(** ** Equations of the monad *)

Lemma bind_read {S A B} (f : S -> A) (k : A -> M S B) (s : S) :
  bind (read f) k s = k (f s) s.
Proof. reflexivity. Qed.

Lemma bind_write {S B} (f : S -> S) (k : unit -> M S B) (s : S) :
  bind (write f) k s = k tt (f s).
Proof. reflexivity. Qed.

Lemma bind_ret {S A B} (a : A) (k : A -> M S B) (s : S) :
  bind (ret a) k s = k a s.
Proof. reflexivity. Qed.

Lemma bind_raise {S A B} (e : exn) (k : A -> M S B) (s : S) :
  bind (raise e) k s = (Raise e, s).
Proof. reflexivity. Qed.

Lemma bind_returns {S A B} (m : M S A) (k : A -> M S B) (s s' : S) (a : A) :
  m s = (Return a, s') -> bind m k s = k a s'.
Proof. intros H. unfold bind. now rewrite H. Qed.

Lemma bind_raises {S A B} (m : M S A) (k : A -> M S B) (s s' : S) (e : exn) :
  m s = (Raise e, s') -> bind m k s = (Raise e, s').
Proof. intros H. unfold bind. now rewrite H. Qed.

Lemma bind_assoc {S A B C} (m : M S A) (k : A -> M S B) (h : B -> M S C) (s : S) :
  bind (bind m k) h s = bind m (fun a => bind (k a) h) s.
Proof. unfold bind. destruct (m s) as [[a|e] s']; reflexivity. Qed.

Lemma for_each_cons {S X} (x : X) (xs : list X) (body : X -> M S unit) (s : S) :
  for_each (x :: xs) body s = bind (body x) (fun _ => for_each xs body) s.
Proof. reflexivity. Qed.

Lemma for_each_nil {S X} (body : X -> M S unit) (s : S) :
  for_each [] body s = (Return tt, s).
Proof. reflexivity. Qed.

Ltac mstep :=
  first [ rewrite bind_read | rewrite bind_write | rewrite bind_ret
        | rewrite bind_assoc | rewrite for_each_cons | rewrite for_each_nil ];
  cbv beta zeta.

(** ** The run of [build_problem] *)

Lemma stock_loop (n : nat) (l : list Material) (k : nat)
    (md : list Material) (ord : Order) aeq beq aub bub st ct :
  for_each (combine (seq k (length l)) l) (fun '(i, material) =>
    write (Env.set_A_ub
             (append (repeat 0 i ++ [1] ++ repeat 0 (n - 1 - i)))) ;;
    write (Env.set_b_ub (append (stock material))))
    (Env.mk md ord aeq beq aub bub st ct)
  = (Return tt,
     Env.mk md ord aeq beq (aub ++ map (unit_row n) (seq k (length l)))
            (bub ++ map stock l) st ct).
Proof.
  revert k aub bub. induction l as [|m l IH]; intros k aub bub.
  - cbn. now rewrite !app_nil_r.
  - cbn [length seq combine]. rewrite for_each_cons.
    repeat mstep. unfold Env.set_A_ub, Env.set_b_ub, append. cbn [Env.materials_data
      Env.order_requirements Env.A_eq Env.b_eq Env.A_ub Env.b_ub Env.stocks Env.constraint].
    rewrite IH. cbn [map]. now rewrite <- !app_assoc.
Qed.

Lemma bind_for_each_cons {S X B} (x : X) (xs : list X) (body : X -> M S unit)
    (k : unit -> M S B) (s : S) :
  bind (for_each (x :: xs) body) k s
  = bind (body x) (fun _ => bind (for_each xs body) k) s.
Proof. cbn [for_each]. now rewrite bind_assoc. Qed.

Lemma bind_for_each_nil {S X B} (body : X -> M S unit) (k : unit -> M S B) (s : S) :
  bind (for_each [] body) k s = k tt s.
Proof. reflexivity. Qed.

Lemma bind_constraint_setitem {B} (idx : nat) (v : Q) (l : list Q)
    (k : unit -> M Env.t B) (s : Env.t) :
  setitem (Env.constraint s) idx v = Some l ->
  bind (constraint_setitem idx v) k s = k tt (Env.set_constraint (fun _ => l) s).
Proof. intros H. unfold bind, constraint_setitem. now rewrite H. Qed.

Ltac env_simpl :=
  unfold Env.set_A_eq, Env.set_b_eq, Env.set_A_ub, Env.set_b_ub,
    Env.set_stocks, Env.set_constraint, append;
  cbn [Env.materials_data Env.order_requirements Env.A_eq Env.b_eq Env.A_ub
       Env.b_ub Env.stocks Env.constraint].

Ltac mrun :=
  repeat (first [ rewrite bind_read | rewrite bind_write | rewrite bind_ret
                | rewrite bind_assoc | rewrite bind_for_each_cons
                | rewrite bind_for_each_nil ];
          cbv beta zeta; env_simpl).

Lemma build_problem_run (flag : bool) (md : list Material) (ord : Order)
    aeq beq aub bub st ct :
  exists st' ct',
    build_problem flag (Env.mk md ord aeq beq aub bub st ct)
    = (Return (problem md ord flag),
       Env.mk md ord (LP.A_eq (problem md ord flag)) (LP.b_eq (problem md ord flag))
              (LP.A_ub (problem md ord flag)) (LP.b_ub (problem md ord flag)) st' ct').
Proof.
  unfold build_problem, elements. mrun.
  unfold enumerate at 1.
  erewrite bind_returns by apply stock_loop.
  unfold problem, capped, band_rows, band_rhs, elements.
  cbn [flat_map app LP.A_eq LP.b_eq LP.A_ub LP.b_ub].
  destruct flag.
  - mrun. fold (sorted_stocks md).
    destruct (2 <=? length (sorted_stocks md))%nat eqn:E.
    + assert (Hidx := sorted_stocks_index md).
      destruct (sorted_stocks md) as [|[i0 q0] [|[i1 q1] rest]] eqn:Es;
        try discriminate E.
      cbn [firstn]. mrun.
      rewrite (bind_constraint_setitem i0 1 (unit_row (length md) i0)).
      2:{ env_simpl. apply setitem_repeat. apply (Hidx (i0, q0)). now left. }
      mrun.
      rewrite (bind_constraint_setitem i1 1 (unit_row (length md) i1)).
      2:{ env_simpl. apply setitem_repeat. apply (Hidx (i1, q1)). right; now left. }
      mrun. cbn [map fst]. rewrite <- !app_assoc. cbn [app].
      eexists _, _. reflexivity.
    + mrun. rewrite !app_nil_r. eexists _, _. reflexivity.
  - mrun. rewrite !app_nil_r. eexists _, _. reflexivity.
Qed.

Lemma optimize_alloy_run (linprog : LP.t -> outcome OptimizeResult.t)
    (flag : bool) (s : Env.t) :
  exists s',
    optimize_alloy linprog flag s
    = (Return (report (linprog (problem (Env.materials_data s)
                                        (Env.order_requirements s) flag))), s')
    /\ Env.materials_data s' = Env.materials_data s
    /\ Env.order_requirements s' = Env.order_requirements s.
Proof.
  destruct s as [md ord aeq beq aub bub st ct]. cbn [Env.materials_data Env.order_requirements].
  destruct (build_problem_run flag md ord aeq beq aub bub st ct) as [st' [ct' H]].
  unfold optimize_alloy. rewrite (bind_returns _ _ _ _ _ H).
  unfold try_except, bind, call, report.
  destruct (linprog (problem md ord flag)) as [r|e].
  - destruct (OptimizeResult.success r); eexists; (split; [reflexivity|]); split; reflexivity.
  - eexists; (split; [reflexivity|]); split; reflexivity.
Qed.

(** ** What a computation leaves untouched *)

Section Preserves.
Context {S T : Type} (proj : S -> T).

Lemma preserves_ret {A} (a : A) : preserves proj (ret a).
Proof. intros s. reflexivity. Qed.

Lemma preserves_raise {A} (e : exn) : preserves proj (@raise S A e).
Proof. intros s. reflexivity. Qed.

Lemma preserves_read {A} (f : S -> A) : preserves proj (read f).
Proof. intros s. reflexivity. Qed.

Lemma preserves_call {A B} (f : A -> outcome B) (a : A) :
  preserves proj (call f a).
Proof. intros s. reflexivity. Qed.

Lemma preserves_write (f : S -> S) :
  (forall s, proj (f s) = proj s) -> preserves proj (write f).
Proof. intros H s. apply H. Qed.

Lemma preserves_bind {A B} (m : M S A) (k : A -> M S B) :
  preserves proj m -> (forall a, preserves proj (k a)) ->
  preserves proj (bind m k).
Proof.
  intros Hm Hk s. unfold bind. specialize (Hm s).
  destruct (m s) as [[a|e] s1]; cbn in *.
  - now rewrite Hk.
  - assumption.
Qed.

Lemma preserves_try_except {A} (body : M S A) (handler : exn -> M S A) :
  preserves proj body -> (forall e, preserves proj (handler e)) ->
  preserves proj (try_except body handler).
Proof.
  intros Hm Hk s. unfold try_except. specialize (Hm s).
  destruct (body s) as [[a|e] s1]; cbn in *.
  - assumption.
  - now rewrite Hk.
Qed.

Lemma preserves_for_each {X} (xs : list X) (body : X -> M S unit) :
  (forall x, preserves proj (body x)) -> preserves proj (for_each xs body).
Proof.
  intros Hb. induction xs as [|x xs IH]; cbn [for_each].
  - apply preserves_ret.
  - apply preserves_bind; [apply Hb | intros _; exact IH].
Qed.

Lemma preserves_if {A} (b : bool) (m1 m2 : M S A) :
  preserves proj m1 -> preserves proj m2 ->
  preserves proj (if b then m1 else m2).
Proof. now destruct b. Qed.

End Preserves.

Lemma preserves_constraint_setitem (idx : nat) (v : Q) :
  preserves arguments (constraint_setitem idx v).
Proof.
  intros s. unfold constraint_setitem.
  destruct (setitem (Env.constraint s) idx v); reflexivity.
Qed.

Ltac frame :=
  repeat first
    [ apply preserves_ret | apply preserves_raise | apply preserves_read
    | apply preserves_call | apply preserves_constraint_setitem
    | apply preserves_write; intros; reflexivity
    | apply preserves_for_each; intros
    | apply preserves_try_except; intros
    | apply preserves_if
    | apply preserves_bind; intros
    | match goal with |- preserves _ (match ?p with pair _ _ => _ end) => destruct p end
    | match goal with |- preserves _ (match ?p with Some _ => _ | None => _ end) => destruct p end
    | match goal with |- preserves _ (if ?b then _ else _) => destruct b end ].

Lemma build_problem_preserves (flag : bool) :
  preserves arguments (build_problem flag).
Proof. unfold build_problem. frame. Qed.

Lemma optimize_alloy_preserves (linprog : LP.t -> outcome OptimizeResult.t)
    (flag : bool) :
  preserves arguments (optimize_alloy linprog flag).
Proof.
  unfold optimize_alloy.
  apply preserves_bind; [apply build_problem_preserves|]. intros lp. frame.
Qed.

Lemma calculate_final_composition_preserves :
  preserves carguments calculate_final_composition.
Proof.
  unfold calculate_final_composition, final_comp_getitem, final_comp_setitem,
    getitem, divide.
  frame.
Qed.

(** ** The run of [calculate_final_composition] *)

Ltac cenv_simpl :=
  unfold CEnv.set_final_comp;
  cbn [CEnv.materials_data CEnv.weights CEnv.final_comp].

Ltac crun :=
  repeat (first [ rewrite bind_read | rewrite bind_write | rewrite bind_ret
                | rewrite bind_assoc | rewrite bind_for_each_cons
                | rewrite bind_for_each_nil ];
          cbv beta zeta; cenv_simpl).

Lemma bind_getitem {S X B} (xs : list X) (i : nat) (v : X)
    (k : X -> M S B) (s : S) :
  nth_error xs i = Some v -> bind (getitem xs i) k s = k v s.
Proof. intros H. unfold getitem. now rewrite H. Qed.

Lemma bind_final_comp_getitem {B} (e : element) (v : Q)
    (k : Q -> M CEnv.t B) (s : CEnv.t) :
  dict_get (CEnv.final_comp s) e = Some v ->
  bind (final_comp_getitem e) k s = k v s.
Proof.
  intros H. unfold final_comp_getitem. rewrite bind_assoc, bind_read.
  now rewrite H.
Qed.

Lemma bind_final_comp_setitem {B} (e : element) (v : Q)
    (k : unit -> M CEnv.t B) (s : CEnv.t) :
  bind (final_comp_setitem e v) k s
  = k tt (CEnv.mk (CEnv.materials_data s) (CEnv.weights s)
                  (dict_set (CEnv.final_comp s) e v)).
Proof. reflexivity. Qed.

Lemma bind_divide {S B} (a b : Q) (k : Q -> M S B) (s : S) :
  Qeq_bool b 0 = false -> bind (divide a b) k s = k (a / b) s.
Proof. intros H. unfold divide. now rewrite H. Qed.

Ltac dict_step :=
  first [ erewrite bind_final_comp_getitem; [| cbn; reflexivity ]
        | rewrite bind_final_comp_setitem ];
  cbv beta; cenv_simpl; cbn [dict_set element_eqb].

Lemma accumulate_loop (l : list Material) (k : nat)
    (md : list Material) (ws : list Q) (acc : element -> Q) :
  (k + length l <= length ws)%nat ->
  for_each (combine (seq k (length l)) l) (fun '(i, material) =>
    for_each elements (fun element =>
      weights <- read CEnv.weights ;;
      w <- getitem weights i ;;
      let element_weight := w * element_content material element / 100 in
      v <- final_comp_getitem element ;;
      final_comp_setitem element (v + element_weight)))
    (CEnv.mk md ws (dict_of acc))
  = (Return tt, CEnv.mk md ws (dict_of (accumulate l (skipn k ws) acc))).
Proof.
  revert k acc. induction l as [|m l IH]; intros k acc Hlen.
  - cbn [length seq combine for_each accumulate]. reflexivity.
  - cbn [length] in Hlen.
    destruct (nth_error ws k) as [w|] eqn:Hw.
    2:{ apply nth_error_None in Hw. lia. }
    assert (Hskip : skipn k ws = w :: skipn (S k) ws).
    { clear - Hw. revert ws Hw. induction k as [|k IHk]; intros [|x ws] Hw;
        cbn in *; try discriminate.
      - congruence.
      - now apply IHk. }
    cbn [length seq combine]. rewrite for_each_cons.
    unfold elements at 1, dict_of at 1. unfold elements at 2. cbn [map].
    repeat first [ progress crun
                 | rewrite (bind_getitem ws k w) by exact Hw; cbv beta zeta
                 | dict_step ].
    change [(Al, acc Al + w * element_content m Al / 100);
            (Cu, acc Cu + w * element_content m Cu / 100);
            (Mg, acc Mg + w * element_content m Mg / 100);
            (Zn, acc Zn + w * element_content m Zn / 100)]
      with (dict_of (fun e => acc e + w * element_content m e / 100)).
    rewrite Hskip. cbn [accumulate]. apply IH. lia.
Qed.

Lemma calculate_final_composition_run (md : list Material) (ws : list Q)
    (fc : dict) :
  (length md <= length ws)%nat ->
  Qeq_bool (sum ws) 0 = false ->
  let d := dict_of (fun e => accumulate md ws (fun _ => 0) e / sum ws * 100) in
  calculate_final_composition (CEnv.mk md ws fc)
  = (Return (Some d), CEnv.mk md ws d).
Proof.
  intros Hlen Hsum d. unfold calculate_final_composition.
  rewrite bind_read. cbv beta zeta. cenv_simpl. rewrite Hsum.
  crun. unfold enumerate.
  change (map (fun element0 : element => (element0, 0)) elements)
    with (dict_of (fun _ => 0)).
  erewrite bind_returns by (apply accumulate_loop; cbn; lia).
  cbn [skipn]. crun.
  unfold dict_of at 1, elements at 1. cbn [map fst].
  set (acc := accumulate md ws (fun _ => 0)).
  repeat first [ progress crun
               | rewrite bind_divide by exact Hsum; cbv beta
               | dict_step ].
  reflexivity.
Qed.

Lemma calculate_final_composition_zero (md : list Material) (ws : list Q)
    (fc : dict) :
  Qeq_bool (sum ws) 0 = true ->
  calculate_final_composition (CEnv.mk md ws fc)
  = (Return None, CEnv.mk md ws fc).
Proof.
  intros Hsum. unfold calculate_final_composition.
  rewrite bind_read. cbv beta zeta. cenv_simpl. now rewrite Hsum.
Qed.

(** ** Sums and products of rows *)

Lemma fold_left_Qplus (xs : list Q) (a : Q) :
  fold_left Qplus xs a == a + total xs.
Proof.
  revert a. induction xs as [|x xs IH]; intros a; cbn.
  - lra.
  - rewrite IH. lra.
Qed.

Lemma sum_total (xs : list Q) : sum xs == total xs.
Proof. unfold sum. rewrite fold_left_Qplus. lra. Qed.

Lemma accumulate_mass (md : list Material) (ws : list Q)
    (acc : element -> Q) (e : element) :
  accumulate md ws acc e == acc e + element_mass md ws e.
Proof.
  revert ws acc. induction md as [|m md IH]; intros [|w ws] acc; cbn;
    try lra.
  rewrite IH. lra.
Qed.

Lemma dot_coeffs (md : list Material) (x : list Q) (e : element) :
  dot (coeffs md e) x == element_mass md x e.
Proof.
  revert x. induction md as [|m md IH]; intros [|w x]; cbn; try lra.
  fold (coeffs md e). rewrite IH. field.
Qed.

Lemma dot_opp (a x : list Q) : dot (map (fun c => - c) a) x == - dot a x.
Proof.
  revert x. induction a as [|a0 a IH]; intros [|x0 x]; cbn; try lra.
  rewrite IH. lra.
Qed.

Lemma dot_ones (x : list Q) : dot (repeat 1 (length x)) x == total x.
Proof.
  induction x as [|x0 x IH]; cbn; [lra|]. rewrite IH. lra.
Qed.

Lemma dot_zeros (m : nat) (x : list Q) : dot (repeat 0 m) x == 0.
Proof.
  revert x. induction m as [|m IH]; intros [|x0 x]; cbn; try lra.
  rewrite IH. lra.
Qed.

Lemma dot_unit_row (n i : nat) (x : list Q) :
  dot (unit_row n i) x == nth i x 0.
Proof.
  unfold unit_row. generalize (n - 1 - i)%nat as m. intros m.
  revert x. induction i as [|i IH]; intros [|x0 x]; cbn; try lra.
  - rewrite dot_zeros. lra.
  - rewrite IH. lra.
Qed.

(** ** Lists in step *)

Lemma Forall2_app_split {X Y} (R : X -> Y -> Prop) (l1 l2 : list X)
    (r1 r2 : list Y) :
  length l1 = length r1 ->
  Forall2 R (l1 ++ l2) (r1 ++ r2) -> Forall2 R l1 r1 /\ Forall2 R l2 r2.
Proof.
  revert r1. induction l1 as [|a l1 IH]; intros [|b r1] Hlen H; cbn in *;
    try discriminate.
  - split; [constructor | assumption].
  - inversion H; subst. destruct (IH r1) as [H1 H2]; [lia | assumption |].
    split; [constructor|]; assumption.
Qed.

Lemma Forall2_map_seq {X Y Z} (R : Y -> Z -> Prop) (f : nat -> Y) (g : X -> Z)
    (l : list X) (k : nat) :
  Forall2 R (map f (seq k (length l))) (map g l) ->
  forall i v, nth_error l i = Some v -> R (f (k + i)%nat) (g v).
Proof.
  revert k. induction l as [|a l IH]; intros k H i v Hi.
  - destruct i; discriminate.
  - cbn in H. inversion H; subst. destruct i as [|i]; cbn in Hi.
    + inversion Hi; subst. now rewrite Nat.add_0_r.
    + replace (k + S i)%nat with (S k + i)%nat by lia. now apply IH.
Qed.

Lemma Forall2_map_same {X Y Z} (R : Y -> Z -> Prop) (f : X -> Y) (g : X -> Z)
    (l : list X) :
  Forall2 R (map f l) (map g l) -> forall a, In a l -> R (f a) (g a).
Proof.
  induction l as [|b l IH]; intros H a Ha; [destruct Ha|].
  cbn in H. inversion H; subst. destruct Ha as [->|Ha]; auto.
Qed.

Lemma Forall2_const_seq {Y} (R : Q * option Q -> Y -> Prop) (b : Q * option Q)
    (k n : nat) (x : list Y) :
  Forall2 R (map (fun _ => b) (seq k n)) x -> Forall (R b) x.
Proof.
  revert k x. induction n as [|n IH]; intros k x H; cbn in H; inversion H; subst.
  - constructor.
  - constructor; [assumption|]. eapply IH; eassumption.
Qed.

Lemma map_const_seq {Y} (b : Y) (k n : nat) :
  map (fun _ => b) (seq k n) = repeat b n.
Proof.
  revert k. induction n as [|n IH]; intros k; cbn; [reflexivity|].
  now rewrite IH.
Qed.

(** ** The boolean test of feasibility *)

Lemma forall2b_Forall2 {X Y} (p : X -> Y -> bool) (P : X -> Y -> Prop)
    (xs : list X) (ys : list Y) :
  (forall a b, p a b = true -> P a b) ->
  forall2b p xs ys = true -> Forall2 P xs ys.
Proof.
  intros Hp. revert ys. induction xs as [|a xs IH]; intros [|b ys] H;
    cbn in H; try discriminate.
  - constructor.
  - apply andb_true_iff in H. destruct H as [H1 H2].
    constructor; [now apply Hp | now apply IH].
Qed.

Lemma feasibleb_sound (lp : LP.t) (x : list Q) :
  feasibleb lp x = true -> feasible lp x.
Proof.
  unfold feasibleb, feasible. intros H.
  repeat (apply andb_true_iff in H; destruct H as [H ?]).
  repeat split.
  - now apply Nat.eqb_eq.
  - eapply forall2b_Forall2; [|eassumption]. intros a b. apply Qeq_bool_iff.
  - eapply forall2b_Forall2; [|eassumption]. intros a b. apply Qle_bool_iff.
  - eapply forall2b_Forall2; [|eassumption]. intros [lo hi] v. unfold withinb, within.
    cbn. intros Hw. apply andb_true_iff in Hw. destruct Hw as [H3 H4].
    split; [now apply Qle_bool_iff|]. destruct hi; [now apply Qle_bool_iff | exact I].
Qed.

Lemma candidate_solver_sound (candidates : list (list Q)) :
  solver_sound (candidate_solver candidates).
Proof.
  intros lp r Hr Hs. unfold candidate_solver in Hr.
  destruct (find (feasibleb lp) candidates) as [x|] eqn:E.
  - inversion Hr; subst. cbn. apply find_some in E. now apply feasibleb_sound.
  - inversion Hr; subst. discriminate.
Qed.

(** ** What a feasible point of the built program satisfies *)

Lemma feasible_problem (md : list Material) (ord : Order) (flag : bool)
    (x : list Q) :
  feasible (problem md ord flag) x ->
  length x = length md /\
  total x == total_weight ord /\
  (forall e,
      (target_content ord e - 0.5) / 100 * total_weight ord
        <= element_mass md x e /\
      element_mass md x e
        <= (target_content ord e + 0.5) / 100 * total_weight ord) /\
  (forall i, (i < length md)%nat -> nth i x 0 <= stock_of md i) /\
  (forall i, In i (capped md flag) -> nth i x 0 <= total_weight ord * 0.3) /\
  Forall (fun v => 0 <= v) x.
Proof.
  unfold feasible, problem.
  cbn [LP.c LP.A_eq LP.b_eq LP.A_ub LP.b_ub LP.bounds].
  rewrite length_map. intros [Hlen [Heq [Hub Hbd]]].
  split; [assumption|].
  split.
  { inversion Heq as [|? ? ? ? H _]; subst. rewrite <- Hlen, dot_ones in H.
    exact H. }
  unfold band_rows, band_rhs, elements in Hub. cbn [flat_map app] in Hub.
  do 8 (let H := fresh "B" in
        inversion Hub as [|? ? ? ? H Hub']; subst; clear Hub; rename Hub' into Hub).
  apply Forall2_app_split in Hub; [|now rewrite !length_map, length_seq].
  destruct Hub as [Hstock Hcap].
  rewrite !dot_opp, !dot_coeffs in *.
  split.
  { intros []; split; lra. }
  split.
  { intros i Hi. destruct (nth_error md i) as [m|] eqn:Em.
    2:{ apply nth_error_None in Em. lia. }
    pose proof (Forall2_map_seq _ _ _ _ _ Hstock i m Em) as H.
    cbn beta in H. rewrite dot_unit_row in H.
    unfold stock_of. now rewrite Em. }
  split.
  { intros i Hi. pose proof (Forall2_map_same _ _ _ _ Hcap i Hi) as H.
    cbn beta in H. now rewrite dot_unit_row in H. }
  apply Forall2_const_seq in Hbd. eapply Forall_impl; [|exact Hbd].
  intros v [Hv _]. exact Hv.
Qed.

(** ** The two capped lots *)

Lemma stock_of_sorted (md : list Material) (i : nat) (q : Q) :
  In (i, q) (sorted_stocks md) -> q = stock_of md i /\ (i < length md)%nat.
Proof.
  intros H. pose proof (sorted_stocks_index md _ H) as Hi.
  apply In_sorted_stocks in H. destruct H as [m [Hm ->]].
  unfold stock_of. rewrite Hm. split; [reflexivity | exact Hi].
Qed.

Lemma capped_characterised (md : list Material) :
  (2 <= length md)%nat ->
  exists i0 i1,
    capped md true = [i0; i1] /\
    (i0 < length md)%nat /\ (i1 < length md)%nat /\
    ranks_before md i0 i1 /\
    (forall j, (j < length md)%nat -> j <> i0 -> j <> i1 -> ranks_before md i1 j).
Proof.
  intros Hn. unfold capped.
  pose proof (sorted_stocks_length md) as Hlen.
  pose proof (sorted_stocks_sorted md) as Hs.
  pose proof (sorted_stocks_NoDup md) as Hnd.
  pose proof (stock_of_sorted md) as Hin.
  pose proof (fun j q => proj2 (In_sorted_stocks md j q)) as Hall.
  destruct (sorted_stocks md) as [|[i0 q0] [|[i1 q1] rest]];
    cbn [length] in Hlen; try lia.
  replace (2 <=? S (S (length rest)))%nat with true
    by (symmetry; apply Nat.leb_le; lia).
  cbn [firstn map fst].
  exists i0, i1.
  destruct (Hin i0 q0) as [E0 L0]; [now left|].
  destruct (Hin i1 q1) as [E1 L1]; [right; now left|].
  cbn [map fst] in Hnd.
  inversion Hnd as [|? ? Hn0 Hnd']; subst.
  inversion Hnd' as [|? ? Hn1 _]; subst.
  inversion Hs as [|? ? Hs' H0]; subst.
  inversion Hs' as [|? ? _ H1]; subst.
  repeat split; try assumption.
  - inversion H0 as [|? ? Hb _]; subst. unfold before in Hb. cbn in Hb.
    destruct Hb as [Hlt | [Heq Hle]]; [now left | right].
    split; [assumption|].
    assert (i0 <> i1) by (intros ->; apply Hn0; now left). lia.
  - intros j Hj Hj0 Hj1.
    destruct (nth_error md j) as [m|] eqn:Em.
    2:{ apply nth_error_None in Em. lia. }
    assert (Hjin : In (j, stock m) ((i0, stock_of md i0) :: (i1, stock_of md i1) :: rest)).
    { apply Hall. eauto. }
    destruct Hjin as [E | [E | Hjin]]; try (inversion E; congruence).
    rewrite Forall_forall in H1. specialize (H1 _ Hjin).
    unfold before in H1. cbn in H1.
    assert (Es : stock m = stock_of md j) by (unfold stock_of; now rewrite Em).
    rewrite Es in H1.
    destruct H1 as [Hlt | [Heq Hle]]; [now left | right].
    split; [assumption | lia].
Qed.

Lemma capped_short (md : list Material) (flag : bool) :
  (length md < 2)%nat -> capped md flag = [].
Proof.
  intros Hn. unfold capped. rewrite sorted_stocks_length.
  destruct flag; [|reflexivity].
  replace (2 <=? length md)%nat with false; [reflexivity|].
  symmetry. apply Nat.leb_gt. lia.
Qed.

Lemma capped_two (md : list Material) :
  length md = 2%nat -> In 0%nat (capped md true) /\ In 1%nat (capped md true).
Proof.
  intros Hn. destruct (capped_characterised md) as [i0 [i1 [E [L0 [L1 [R _]]]]]];
    [lia|].
  rewrite E. rewrite Hn in L0, L1.
  assert (i0 <> i1).
  { intros ->. destruct R as [R | [_ R]]; [|lia].
    revert R. apply Qlt_irrefl. }
  cbn. lia.
Qed.

(** ** No feasible point *)

Lemma two_lots_capped_no_point (a b : Material) (ord : Order) (x : list Q) :
  0 < total_weight ord -> ~ feasible (problem [a; b] ord true) x.
Proof.
  intros HW Hf. apply feasible_problem in Hf.
  destruct Hf as [Hlen [Htot [_ [_ [Hcap _]]]]].
  destruct (capped_two [a; b] eq_refl) as [C0 C1].
  apply Hcap in C0, C1.
  destruct x as [|x0 [|x1 [|x2 x]]]; try discriminate Hlen.
  cbn in *. lra.
Qed.

Lemma short_stock_no_point (m : Material) (ord : Order) (flag : bool)
    (x : list Q) :
  stock m < total_weight ord -> ~ feasible (problem [m] ord flag) x.
Proof.
  intros HW Hf. apply feasible_problem in Hf.
  destruct Hf as [Hlen [Htot [_ [Hstock _]]]].
  specialize (Hstock 0%nat (Nat.lt_0_1)).
  destruct x as [|x0 [|x1 x]]; try discriminate Hlen.
  cbn in *. lra.
Qed.

(** On a program with no feasible point a sound solver's outcome is
    reported as a failure. *)
Lemma report_infeasible (linprog : LP.t -> outcome OptimizeResult.t) (lp : LP.t) :
  solver_sound linprog ->
  (forall x, ~ feasible lp x) ->
  success (report (linprog lp)) = false.
Proof.
  intros Hs Hno. unfold report.
  destruct (linprog lp) as [r|e] eqn:E; [|reflexivity].
  destruct (OptimizeResult.success r) eqn:Er; [|reflexivity].
  exfalso. exact (Hno _ (Hs lp r E Er)).
Qed.

Lemma report_success (o : outcome OptimizeResult.t) cost ws msg :
  report o = Success cost ws msg ->
  exists r, o = Return r /\ OptimizeResult.success r = true /\
            ws = OptimizeResult.x r.
Proof.
  unfold report. destruct o as [r|e]; [|discriminate].
  destruct (OptimizeResult.success r) eqn:E; [|discriminate].
  intros H. inversion H; subst. now exists r.
Qed.

Lemma build_problem_returns (flag : bool) (s : Env.t) :
  exists s',
    build_problem flag s
    = (Return (problem (Env.materials_data s) (Env.order_requirements s) flag), s').
Proof.
  destruct s as [md ord aeq beq aub bub st ct].
  destruct (build_problem_run flag md ord aeq beq aub bub st ct) as [st' [ct' H]].
  eexists. exact H.
Qed.

(** ** The band, divided by the total weight *)

Lemma band_arithmetic (t W m : Q) :
  0 < W ->
  (t - 0.5) / 100 * W <= m ->
  m <= (t + 0.5) / 100 * W ->
  Qabs (m * 100 / W - t) <= 0.5.
Proof.
  intros HW Hlo Hhi.
  assert (Hlo' : t - 0.5 <= m * 100 / W).
  { apply Qle_shift_div_l; [exact HW|].
    assert (E : (t - 0.5) * W == (t - 0.5) / 100 * W * 100) by field.
    rewrite E. lra. }
  assert (Hhi' : m * 100 / W <= t + 0.5).
  { apply Qle_shift_div_r; [exact HW|].
    assert (E : (t + 0.5) * W == (t + 0.5) / 100 * W * 100) by field.
    rewrite E. lra. }
  apply Qabs_Qle_condition. split; lra.
Qed.

(** ** Which exceptions a computation may raise *)

Section RaisesOnly.
Context {S : Type} (P : exn -> Prop).

Lemma raises_only_ret {A} (a : A) : raises_only P (@ret S A a).
Proof. intros s e s' H. discriminate H. Qed.

Lemma raises_only_read {A} (f : S -> A) : raises_only P (read f).
Proof. intros s e s' H. discriminate H. Qed.

Lemma raises_only_write (f : S -> S) : raises_only P (write f).
Proof. intros s e s' H. discriminate H. Qed.

Lemma raises_only_raise {A} (e : exn) : P e -> raises_only P (@raise S A e).
Proof. intros He s e' s' H. inversion H; subst. exact He. Qed.

Lemma raises_only_bind {A B} (m : M S A) (k : A -> M S B) :
  raises_only P m -> (forall a, raises_only P (k a)) ->
  raises_only P (bind m k).
Proof.
  intros Hm Hk s e s' H. unfold bind in H.
  destruct (m s) as [[a|e0] s1] eqn:E.
  - exact (Hk a _ _ _ H).
  - inversion H; subst. exact (Hm _ _ _ E).
Qed.

Lemma raises_only_for_each {X} (xs : list X) (body : X -> M S unit) :
  (forall x, raises_only P (body x)) -> raises_only P (for_each xs body).
Proof.
  intros Hb. induction xs as [|x xs IH]; cbn [for_each].
  - apply raises_only_ret.
  - apply raises_only_bind; [apply Hb | intros _; exact IH].
Qed.

End RaisesOnly.

Lemma raises_only_getitem {S X} (P : exn -> Prop) (xs : list X) (i : nat) :
  P IndexError -> raises_only P (@getitem S X xs i).
Proof.
  intros HP. unfold getitem. destruct (nth_error xs i).
  - apply raises_only_ret.
  - now apply raises_only_raise.
Qed.

Lemma raises_only_final_comp_getitem (P : exn -> Prop) (k : element) :
  P (Exception "KeyError") -> raises_only P (final_comp_getitem k).
Proof.
  intros HP. unfold final_comp_getitem.
  apply raises_only_bind; [apply raises_only_read|].
  intros d. destruct (dict_get d k).
  - apply raises_only_ret.
  - now apply raises_only_raise.
Qed.

Lemma raises_only_divide {S} (P : exn -> Prop) (a b : Q) :
  Qeq_bool b 0 = false -> raises_only P (@divide S a b).
Proof. intros H. unfold divide. rewrite H. apply raises_only_ret. Qed.

Lemma calculate_final_composition_raises :
  raises_only (fun e => e <> ZeroDivisionError) calculate_final_composition.
Proof.
  intros s. unfold calculate_final_composition.
  rewrite bind_read. cbv beta zeta.
  destruct (Qeq_bool (sum (CEnv.weights s)) 0) eqn:E.
  - intros e s' H. discriminate H.
  - remember (sum (CEnv.weights s)) as T eqn:HT. clear HT. revert s.
    refine (_ : raises_only (fun e => e <> ZeroDivisionError) _).
    unfold final_comp_setitem.
    repeat first
      [ apply raises_only_ret | apply raises_only_read | apply raises_only_write
      | apply raises_only_getitem; discriminate
      | apply raises_only_final_comp_getitem; discriminate
      | apply raises_only_divide; exact E
      | apply raises_only_for_each; intros
      | apply raises_only_bind; intros
      | match goal with
        | |- raises_only _ (match ?p with pair _ _ => _ end) => destruct p
        end ].
Qed.

(** * The claims *)

(** C7.  [optimize_alloy] passes the solver exactly one equality row, all
    ones, with the order's total weight on the right; every variable is
    bounded below by 0 and has no upper bound.  So the weights of every
    feasible point add up to the total weight, and so do the weights of a
    successful result when the solver is sound. *)
Theorem mass_balance_equality (flag : bool) (s : Env.t) :
  exists lp s',
    build_problem flag s = (Return lp, s') /\
    LP.A_eq lp = [repeat 1 (length (Env.materials_data s))] /\
    LP.b_eq lp = [total_weight (Env.order_requirements s)] /\
    LP.bounds lp = repeat (0, None) (length (Env.materials_data s)) /\
    (forall x, feasible lp x ->
       sum x == total_weight (Env.order_requirements s) /\
       Forall (fun v => 0 <= v) x) /\
    (forall linprog cost ws msg s'',
       solver_sound linprog ->
       optimize_alloy linprog flag s = (Return (Success cost ws msg), s'') ->
       sum ws == total_weight (Env.order_requirements s)).
Proof.
  destruct (build_problem_returns flag s) as [s' H].
  eexists _, _. split; [exact H|].
  assert (Hfeas : forall x,
             feasible (problem (Env.materials_data s) (Env.order_requirements s) flag) x ->
             sum x == total_weight (Env.order_requirements s) /\
             Forall (fun v => 0 <= v) x).
  { intros x Hx. apply feasible_problem in Hx.
    destruct Hx as [_ [Ht [_ [_ [_ Hp]]]]]. rewrite sum_total. now split. }
  repeat split.
  - cbn. apply map_const_seq.
  - now apply Hfeas.
  - now apply Hfeas.
  - intros linprog cost ws msg s'' Hs Hrun.
    destruct (optimize_alloy_run linprog flag s) as [s1 [Hr _]].
    rewrite Hr in Hrun. inversion Hrun as [[Hrep Hst]].
    apply report_success in Hrep. destruct Hrep as [r [Er [Esucc ->]]].
    apply Hfeas. now apply Hs.
Qed.

(** C5.  Whatever its input and whatever the solver does, [optimize_alloy]
    returns a value and raises nothing: the success dictionary when the
    solver reports success, and otherwise a failure dictionary whose message
    alone tells an infeasible program from an error raised by the solver. *)
Theorem optimize_alloy_returns
    (linprog : LP.t -> outcome OptimizeResult.t) (flag : bool) (s : Env.t) :
  exists lp s0 r s',
    build_problem flag s = (Return lp, s0) /\
    optimize_alloy linprog flag s = (Return r, s') /\
    match linprog lp with
    | Return result =>
        if OptimizeResult.success result then
          r = Success (OptimizeResult.fun_ result) (OptimizeResult.x result)
                      "优化成功"
        else
          r = Failure ("无法找到可行解: " ++ OptimizeResult.message result)%string
    | Raise e => r = Failure ("求解过程中出错: " ++ str e)%string
    end.
Proof.
  destruct (build_problem_returns flag s) as [s0 H].
  destruct (optimize_alloy_run linprog flag s) as [s' [Hr _]].
  eexists _, _, _, _. split; [exact H|]. split; [exact Hr|].
  unfold report.
  destruct (linprog _) as [r|e]; [|reflexivity].
  destruct (OptimizeResult.success r); reflexivity.
Qed.

(** C10.  Neither method changes its arguments: after [optimize_alloy] the
    materials list and the order are what they were, and after
    [calculate_final_composition] so are the materials list and the weights,
    whether the call returned a success, a failure or raised. *)
Theorem inputs_unchanged
    (linprog : LP.t -> outcome OptimizeResult.t) (flag : bool)
    (s : Env.t) (cs : CEnv.t) :
  Env.materials_data (snd (optimize_alloy linprog flag s)) = Env.materials_data s /\
  Env.order_requirements (snd (optimize_alloy linprog flag s))
    = Env.order_requirements s /\
  CEnv.materials_data (snd (calculate_final_composition cs))
    = CEnv.materials_data cs /\
  CEnv.weights (snd (calculate_final_composition cs)) = CEnv.weights cs.
Proof.
  pose proof (optimize_alloy_preserves linprog flag s) as H1.
  pose proof (calculate_final_composition_preserves cs) as H2.
  unfold arguments in H1. unfold carguments in H2.
  inversion H1. inversion H2. repeat split; assumption.
Qed.

(** C6.  For weights aligned with the lots and of non-zero sum,
    [calculate_final_composition] returns a dictionary over the four
    elements whose value for element e is
    100 * (sum of weight * content / 100 over the lots) / (sum of weights). *)
Theorem final_composition_formula (md : list Material) (ws : list Q) (fc : dict) :
  length ws = length md ->
  ~ sum ws == 0 ->
  exists d cs',
    calculate_final_composition (CEnv.mk md ws fc) = (Return (Some d), cs') /\
    map fst d = elements /\
    forall e, exists v,
      dict_get d e = Some v /\ v == 100 * element_mass md ws e / sum ws.
Proof.
  intros Hlen Hsum.
  assert (Hb : Qeq_bool (sum ws) 0 = false).
  { destruct (Qeq_bool (sum ws) 0) eqn:E; [|reflexivity].
    apply Qeq_bool_iff in E. contradiction. }
  eexists _, _. split.
  - apply calculate_final_composition_run; [lia | exact Hb].
  - split; [reflexivity|].
    intros e. eexists. split.
    + destruct e; reflexivity.
    + destruct e; cbn beta; rewrite accumulate_mass; field; exact Hsum.
Qed.

(** C8.  When the weights add up to zero [calculate_final_composition]
    returns [None], the value that stands for an undefined composition: it
    raises nothing, divides nothing and leaves its state as it was. *)
Theorem zero_total_is_undefined (md : list Material) (ws : list Q) (fc : dict) :
  sum ws == 0 ->
  calculate_final_composition (CEnv.mk md ws fc) = (Return None, CEnv.mk md ws fc).
Proof.
  intros H. apply calculate_final_composition_zero. now apply Qeq_bool_iff.
Qed.

(** C1.  A vector that satisfies the constraints [optimize_alloy] builds,
    for an order of positive total weight, gives a blend whose content of
    every element is within 0.5 of the target. *)
Theorem composition_within_band (flag : bool) (s s' : Env.t) (lp : LP.t)
    (x : list Q) (fc : dict) :
  build_problem flag s = (Return lp, s') ->
  0 < total_weight (Env.order_requirements s) ->
  feasible lp x ->
  exists d cs',
    calculate_final_composition (CEnv.mk (Env.materials_data s) x fc)
    = (Return (Some d), cs') /\
    within_band d (Env.order_requirements s) 0.5.
Proof.
  intros Hrun HW Hx.
  destruct (build_problem_returns flag s) as [s1 H]. rewrite H in Hrun.
  inversion Hrun; subst lp. clear Hrun H.
  set (md := Env.materials_data s) in *. set (ord := Env.order_requirements s) in *.
  apply feasible_problem in Hx.
  destruct Hx as [Hlen [Htot [Hband _]]].
  assert (Hsum : sum x == total_weight ord) by now rewrite sum_total.
  assert (Hb : Qeq_bool (sum x) 0 = false).
  { destruct (Qeq_bool (sum x) 0) eqn:E; [|reflexivity].
    apply Qeq_bool_iff in E. rewrite E in Hsum. lra. }
  eexists _, _. split.
  - apply calculate_final_composition_run; [lia | exact Hb].
  - intros e. exists (accumulate md x (fun _ => 0) e / sum x * 100).
    split; [destruct e; reflexivity|].
    assert (G : accumulate md x (fun _ => 0) e / sum x * 100
                == element_mass md x e * 100 / total_weight ord).
    { rewrite accumulate_mass, Hsum. field. lra. }
    destruct (Hband e) as [Hlo Hhi].
    rewrite G. now apply band_arithmetic.
Qed.

(** C3.  With exactly two lots, the cap on and an order of positive total
    weight, the program [optimize_alloy] builds has no feasible point: both
    variables are capped at 0.3 of the total weight and must add up to it.
    With a sound solver the result is a failure. *)
Theorem two_lots_capped_fails
    (linprog : LP.t -> outcome OptimizeResult.t) (s : Env.t) :
  solver_sound linprog ->
  length (Env.materials_data s) = 2%nat ->
  0 < total_weight (Env.order_requirements s) ->
  exists lp s0 r s',
    build_problem true s = (Return lp, s0) /\
    (forall x, ~ feasible lp x) /\
    optimize_alloy linprog true s = (Return r, s') /\
    success r = false.
Proof.
  intros Hs Hn HW.
  destruct (build_problem_returns true s) as [s0 H].
  destruct (optimize_alloy_run linprog true s) as [s' [Hr _]].
  assert (Hno : forall x,
             ~ feasible (problem (Env.materials_data s)
                                 (Env.order_requirements s) true) x).
  { destruct (Env.materials_data s) as [|a [|b [|c md]]]; try discriminate Hn.
    intros x. now apply two_lots_capped_no_point. }
  eexists _, _, _, _. split; [exact H|]. split; [exact Hno|].
  split; [exact Hr|]. now apply report_infeasible.
Qed.

(** C9.  With a single lot of stock 10 and an order of total weight 100 the
    stock row and the mass-balance row cannot both hold, and with a sound
    solver the result is a failure. *)
Theorem single_lot_short_stock_fails
    (linprog : LP.t -> outcome OptimizeResult.t) (flag : bool) (s : Env.t)
    (m : Material) :
  solver_sound linprog ->
  Env.materials_data s = [m] ->
  stock m == 10 ->
  total_weight (Env.order_requirements s) == 100 ->
  exists lp s0 r s',
    build_problem flag s = (Return lp, s0) /\
    LP.A_eq lp = [[1]] /\
    In ([1], stock m) (combine (LP.A_ub lp) (LP.b_ub lp)) /\
    (forall x, ~ feasible lp x) /\
    optimize_alloy linprog flag s = (Return r, s') /\
    success r = false.
Proof.
  intros Hs Hm Hst HW.
  destruct (build_problem_returns flag s) as [s0 H].
  destruct (optimize_alloy_run linprog flag s) as [s' [Hr _]].
  rewrite Hm in *.
  assert (Hno : forall x,
             ~ feasible (problem [m] (Env.order_requirements s) flag) x).
  { intros x. apply short_stock_no_point. rewrite Hst, HW. reflexivity. }
  eexists _, _, _, _. split; [exact H|].
  split; [reflexivity|].
  split.
  { unfold problem. cbn [LP.A_ub LP.b_ub length seq map].
    unfold band_rows, band_rhs, elements. cbn [flat_map app combine].
    do 8 right. left. reflexivity. }
  split; [exact Hno|].
  split; [exact Hr|]. now apply report_infeasible.
Qed.

(** C2.  With the cap on and at least two lots, [optimize_alloy] adds to the
    rows it builds without the cap exactly two rows, each bounding one
    variable by 0.3 of the total weight: those of the two lots that come
    first when the lots are ranked by ascending stock, ties broken by the
    order of the input.  With fewer than two lots it adds none. *)
Theorem scarcity_cap_rows (s : Env.t) :
  exists lp0 s0 lp1 s1,
    build_problem false s = (Return lp0, s0) /\
    build_problem true s = (Return lp1, s1) /\
    LP.c lp1 = LP.c lp0 /\
    LP.A_eq lp1 = LP.A_eq lp0 /\
    LP.b_eq lp1 = LP.b_eq lp0 /\
    LP.bounds lp1 = LP.bounds lp0 /\
    ((length (Env.materials_data s) < 2)%nat ->
     LP.A_ub lp1 = LP.A_ub lp0 /\ LP.b_ub lp1 = LP.b_ub lp0) /\
    ((2 <= length (Env.materials_data s))%nat ->
     exists i0 i1,
       LP.A_ub lp1
       = LP.A_ub lp0 ++ [unit_row (length (Env.materials_data s)) i0;
                         unit_row (length (Env.materials_data s)) i1] /\
       LP.b_ub lp1
       = LP.b_ub lp0 ++ [total_weight (Env.order_requirements s) * 0.3;
                         total_weight (Env.order_requirements s) * 0.3] /\
       (forall x i b,
          dot (unit_row (length (Env.materials_data s)) i) x <= b * 0.3
          <-> nth i x 0 <= 0.3 * b) /\
       (i0 < length (Env.materials_data s))%nat /\
       (i1 < length (Env.materials_data s))%nat /\
       ranks_before (Env.materials_data s) i0 i1 /\
       (forall j, (j < length (Env.materials_data s))%nat ->
                  j <> i0 -> j <> i1 ->
                  ranks_before (Env.materials_data s) i1 j)).
Proof.
  destruct (build_problem_returns false s) as [s0 H0].
  destruct (build_problem_returns true s) as [s1 H1].
  eexists _, _, _, _. split; [exact H0|]. split; [exact H1|].
  unfold problem. cbn [LP.c LP.A_eq LP.b_eq LP.A_ub LP.b_ub LP.bounds].
  repeat (split; [reflexivity|]).
  split.
  - intros Hn. rewrite (capped_short _ true Hn). split; reflexivity.
  - intros Hn.
    destruct (capped_characterised _ Hn) as [i0 [i1 [E [L0 [L1 [R0 R1]]]]]].
    exists i0, i1. rewrite E. cbn [capped map]. rewrite !app_nil_r.
    rewrite <- !app_assoc.
    repeat split; try assumption.
    + intros Hd. rewrite dot_unit_row in Hd. lra.
    + intros Hd. rewrite dot_unit_row. lra.
Qed.

(** C4, as stated, fails.  For the two lots A and B and the order of 1000,
    called with the cap argument at its default, the program has no
    feasible point and every sound solver's result is a failure. *)
Lemma two_lot_scenario_default_fails :
  exists lp s0,
    build_problem max_ratio_constraint_default (Env.init [lot_A; lot_B] order_AB)
    = (Return lp, s0) /\
    (forall x, ~ feasible lp x) /\
    (forall linprog, solver_sound linprog ->
       exists r s',
         optimize_alloy linprog max_ratio_constraint_default
                        (Env.init [lot_A; lot_B] order_AB)
         = (Return r, s') /\
         success r = false).
Proof.
  unfold max_ratio_constraint_default.
  destruct (build_problem_returns true (Env.init [lot_A; lot_B] order_AB))
    as [s0 H].
  cbn [Env.init Env.materials_data Env.order_requirements] in H.
  assert (Hno : forall x, ~ feasible (problem [lot_A; lot_B] order_AB true) x).
  { intros x. apply two_lots_capped_no_point. reflexivity. }
  eexists _, _. split; [exact H|]. split; [exact Hno|].
  intros linprog Hs.
  destruct (optimize_alloy_run linprog true (Env.init [lot_A; lot_B] order_AB))
    as [s' [Hr _]].
  cbn [Env.init Env.materials_data Env.order_requirements] in Hr.
  eexists _, _. split; [exact Hr|]. now apply report_infeasible.
Qed.

(** C4, amended.  For the two lots A and B and the order of 1000, called
    with the cap off and a solver that is sound and succeeds on this
    program if it has a feasible point, [optimize_alloy] returns a success
    whose weights add up to 1000 and whose blend is within 0.5 of the
    target for every element. *)
Theorem two_lot_scenario_without_cap
    (linprog : LP.t -> outcome OptimizeResult.t) (lp : LP.t) (s0 : Env.t) :
  solver_sound linprog ->
  build_problem false (Env.init [lot_A; lot_B] order_AB) = (Return lp, s0) ->
  solver_complete_on linprog lp ->
  exists cost ws msg s' d cs',
    optimize_alloy linprog false (Env.init [lot_A; lot_B] order_AB)
    = (Return (Success cost ws msg), s') /\
    sum ws == 1000 /\
    calculate_final_composition (CEnv.init [lot_A; lot_B] ws)
    = (Return (Some d), cs') /\
    within_band d order_AB 0.5.
Proof.
  intros Hs Hrun Hc.
  destruct (build_problem_returns false (Env.init [lot_A; lot_B] order_AB))
    as [s1 H].
  cbn [Env.init Env.materials_data Env.order_requirements] in H.
  rewrite H in Hrun. inversion Hrun; subst lp. clear Hrun.
  destruct Hc as [r [Er Esucc]].
  { exists [1000; 0]. apply feasibleb_sound. vm_compute. reflexivity. }
  pose proof (Hs _ _ Er Esucc) as Hfeas.
  destruct (optimize_alloy_run linprog false (Env.init [lot_A; lot_B] order_AB))
    as [s' [Hr _]].
  cbn [Env.init Env.materials_data Env.order_requirements] in Hr.
  rewrite Er in Hr. unfold report in Hr. rewrite Esucc in Hr.
  pose proof (feasible_problem _ _ _ _ Hfeas) as [Hlen [Htot [Hband _]]].
  assert (Hsum : sum (OptimizeResult.x r) == 1000)
    by (rewrite sum_total; exact Htot).
  assert (Hb : Qeq_bool (sum (OptimizeResult.x r)) 0 = false).
  { destruct (Qeq_bool (sum (OptimizeResult.x r)) 0) eqn:E; [|reflexivity].
    apply Qeq_bool_iff in E. rewrite E in Hsum. discriminate Hsum. }
  eexists _, _, _, _, _, _. split; [exact Hr|]. split; [exact Hsum|].
  split.
  - apply calculate_final_composition_run; [lia | exact Hb].
  - intros e.
    exists (accumulate [lot_A; lot_B] (OptimizeResult.x r) (fun _ => 0) e
            / sum (OptimizeResult.x r) * 100).
    split; [destruct e; reflexivity|].
    assert (G : accumulate [lot_A; lot_B] (OptimizeResult.x r) (fun _ => 0) e
                / sum (OptimizeResult.x r) * 100
                == element_mass [lot_A; lot_B] (OptimizeResult.x r) e * 100
                   / total_weight order_AB).
    { rewrite accumulate_mass, Hsum. cbn [total_weight order_AB]. field. }
    destruct (Hband e) as [Hlo Hhi].
    rewrite G. apply band_arithmetic; [reflexivity | assumption | assumption].
Qed.

(** ** The theorems at concrete inputs *)

Lemma composition_within_band_witness :
  feasible (problem [lot_A; lot_B] order_AB false) [500; 500] /\
  exists d cs',
    calculate_final_composition (CEnv.mk [lot_A; lot_B] [500; 500] [])
    = (Return (Some d), cs') /\
    within_band d order_AB 0.5.
Proof.
  assert (Hf : feasible (problem [lot_A; lot_B] order_AB false) [500; 500])
    by (apply feasibleb_sound; vm_compute; reflexivity).
  split; [exact Hf|].
  apply (composition_within_band false (Env.init [lot_A; lot_B] order_AB)
           (snd (build_problem false (Env.init [lot_A; lot_B] order_AB)))
           (problem [lot_A; lot_B] order_AB false) [500; 500] []).
  - vm_compute. reflexivity.
  - reflexivity.
  - exact Hf.
Defined.

Lemma two_lots_capped_fails_witness :
  exists lp s0 r s',
    build_problem true (Env.init [lot_A; lot_B] order_AB) = (Return lp, s0) /\
    (forall x, ~ feasible lp x) /\
    optimize_alloy (candidate_solver [[1000; 0]; [500; 500]]) true
                   (Env.init [lot_A; lot_B] order_AB)
    = (Return r, s') /\
    success r = false.
Proof.
  apply (two_lots_capped_fails (candidate_solver [[1000; 0]; [500; 500]])
           (Env.init [lot_A; lot_B] order_AB)).
  - apply candidate_solver_sound.
  - reflexivity.
  - reflexivity.
Defined.

Lemma single_lot_short_stock_fails_witness :
  exists lp s0 r s',
    build_problem true (Env.init [lot_small] order_100) = (Return lp, s0) /\
    LP.A_eq lp = [[1]] /\
    In ([1], stock lot_small) (combine (LP.A_ub lp) (LP.b_ub lp)) /\
    (forall x, ~ feasible lp x) /\
    optimize_alloy (candidate_solver [[100]; [10]]) true
                   (Env.init [lot_small] order_100)
    = (Return r, s') /\
    success r = false.
Proof.
  apply (single_lot_short_stock_fails (candidate_solver [[100]; [10]]) true
           (Env.init [lot_small] order_100) lot_small).
  - apply candidate_solver_sound.
  - reflexivity.
  - reflexivity.
  - reflexivity.
Defined.

Lemma final_composition_formula_witness :
  exists d cs',
    calculate_final_composition (CEnv.mk [lot_A; lot_B] [500; 500] [])
    = (Return (Some d), cs') /\
    map fst d = elements /\
    forall e, exists v,
      dict_get d e = Some v /\
      v == 100 * element_mass [lot_A; lot_B] [500; 500] e / sum [500; 500].
Proof.
  apply (final_composition_formula [lot_A; lot_B] [500; 500] []).
  - reflexivity.
  - intros H. vm_compute in H. discriminate H.
Defined.

Lemma zero_total_is_undefined_witness :
  sum [250; -250] == 0 /\
  calculate_final_composition (CEnv.mk [lot_A; lot_B] [250; -250] [])
  = (Return None, CEnv.mk [lot_A; lot_B] [250; -250] []).
Proof.
  split.
  - reflexivity.
  - apply (zero_total_is_undefined [lot_A; lot_B] [250; -250] []). reflexivity.
Defined.

Lemma two_lot_scenario_without_cap_witness :
  exists cost ws msg s' d cs',
    optimize_alloy (candidate_solver [[1000; 0]]) false
                   (Env.init [lot_A; lot_B] order_AB)
    = (Return (Success cost ws msg), s') /\
    sum ws == 1000 /\
    calculate_final_composition (CEnv.init [lot_A; lot_B] ws)
    = (Return (Some d), cs') /\
    within_band d order_AB 0.5.
Proof.
  apply (two_lot_scenario_without_cap (candidate_solver [[1000; 0]])
           (problem [lot_A; lot_B] order_AB false)
           (snd (build_problem false (Env.init [lot_A; lot_B] order_AB)))).
  - apply candidate_solver_sound.
  - vm_compute. reflexivity.
  - intros _. eexists. split; vm_compute; reflexivity.
Defined.

(** ** Runs on concrete inputs *)

Example run_two_lots_default :
  fst (optimize_alloy (candidate_solver [[1000; 0]; [500; 500]; [300; 700]])
         max_ratio_constraint_default (Env.init [lot_A; lot_B] order_AB))
  = Return (Failure "无法找到可行解: The problem is infeasible.").
Proof. vm_compute. reflexivity. Qed.

Example run_two_lots_without_cap :
  fst (optimize_alloy (candidate_solver [[1000; 0]; [500; 500]]) false
         (Env.init [lot_A; lot_B] order_AB))
  = Return (Success 15000 [1000; 0] "优化成功").
Proof. vm_compute. reflexivity. Qed.

Example run_three_lots_capped :
  capped [lot_A; lot_B; lot_C] true = [2%nat; 0%nat] /\
  fst (optimize_alloy (candidate_solver [[1000; 0; 0]; [300; 400; 300]]) true
         (Env.init [lot_A; lot_B; lot_C] order_AB))
  = Return (Success (300 * 15 + 400 * 18 + 300 * 14.5) [300; 400; 300] "优化成功").
Proof. split; vm_compute; reflexivity. Qed.

Example run_single_lot_short_stock :
  fst (optimize_alloy (candidate_solver [[100]; [10]]) true
         (Env.init [lot_small] order_100))
  = Return (Failure "无法找到可行解: The problem is infeasible.").
Proof. vm_compute. reflexivity. Qed.

Example run_composition_misaligned :
  fst (calculate_final_composition (CEnv.init [lot_A; lot_B] [1000]))
  = Raise IndexError.
Proof. vm_compute. reflexivity. Qed.

(** ** Further properties of the two methods *)

(** X1.  Every point that satisfies the constraints [optimize_alloy] builds
    takes from each lot at most its stock, takes at most 0.3 of the total
    weight from each capped lot, and takes nothing negative. *)
Theorem stock_and_cap_respected (flag : bool) (s s' : Env.t) (lp : LP.t)
    (x : list Q) :
  build_problem flag s = (Return lp, s') ->
  feasible lp x ->
  (forall i, (i < length (Env.materials_data s))%nat ->
             0 <= nth i x 0 /\ nth i x 0 <= stock_of (Env.materials_data s) i) /\
  (forall i, In i (capped (Env.materials_data s) flag) ->
             nth i x 0 <= total_weight (Env.order_requirements s) * 0.3).
Proof.
  intros Hrun Hx.
  destruct (build_problem_returns flag s) as [s1 H]. rewrite H in Hrun.
  inversion Hrun; subst lp. clear Hrun H.
  apply feasible_problem in Hx.
  destruct Hx as [Hlen [_ [_ [Hstock [Hcap Hpos]]]]].
  split; [|exact Hcap].
  intros i Hi. split; [|now apply Hstock].
  rewrite Forall_forall in Hpos. apply Hpos. apply nth_In. lia.
Qed.

Lemma stock_and_cap_respected_witness :
  (forall i, (i < 3)%nat ->
             0 <= nth i [300; 400; 300] 0 /\
             nth i [300; 400; 300] 0 <= stock_of [lot_A; lot_B; lot_C] i) /\
  (forall i, In i (capped [lot_A; lot_B; lot_C] true) ->
             nth i [300; 400; 300] 0 <= total_weight order_AB * 0.3).
Proof.
  apply (stock_and_cap_respected true (Env.init [lot_A; lot_B; lot_C] order_AB)
           (snd (build_problem true (Env.init [lot_A; lot_B; lot_C] order_AB)))
           (problem [lot_A; lot_B; lot_C] order_AB true) [300; 400; 300]).
  - vm_compute. reflexivity.
  - apply feasibleb_sound. vm_compute. reflexivity.
Defined.

(** X2.  [calculate_final_composition] never divides by zero, whatever its
    arguments: it raises no [ZeroDivisionError]. *)
Theorem no_division_by_zero (cs : CEnv.t) :
  fst (calculate_final_composition cs) <> Raise ZeroDivisionError.
Proof.
  destruct (calculate_final_composition cs) as [[d|e] cs'] eqn:E; cbn.
  - discriminate.
  - intros H. inversion H; subst.
    exact (calculate_final_composition_raises _ _ _ E eq_refl).
Qed.

(** X3.  The objective [optimize_alloy] passes to the solver is the list of
    the lots' prices, in the order of the input. *)
Theorem objective_is_prices (flag : bool) (s : Env.t) :
  exists lp s',
    build_problem flag s = (Return lp, s') /\
    LP.c lp = map price (Env.materials_data s).
Proof.
  destruct (build_problem_returns flag s) as [s' H].
  eexists _, _. split; [exact H | reflexivity].
Qed.

Example run_composition_zero :
  fst (calculate_final_composition (CEnv.init [lot_A; lot_B] [0; 0]))
  = Return None.
Proof. vm_compute. reflexivity. Qed.

(** * The inventory of the session *)

Ltac session_run :=
  unfold initialize_session_state, is_material_already_added, add_material,
    remove_material, get_available_material_types, get_materials_list,
    get_next_material_id, bind, read, write, ret, Session.set_materials_list,
    Session.set_next_material_id, Session.show;
  cbn [Session.materials_list Session.next_material_id Session.messages negb].

Lemma filter_other_ids (i : nat) (l : list Material) :
  Forall (fun material => (id material < i)%nat) l ->
  filter (fun material => negb (id material =? i)%nat) l = l.
Proof.
  induction 1 as [|m l Hm _ IH]; cbn; [reflexivity|].
  replace (id m =? i)%nat with false by (symmetry; apply Nat.eqb_neq; lia).
  cbn. now rewrite IH.
Qed.

Lemma find_id_none (i : nat) (l : list Material) :
  ~ In i (map id l) ->
  find (fun mat => (id mat =? i)%nat) l = None /\
  filter (fun material => negb (id material =? i)%nat) l = l.
Proof.
  induction l as [|m l IH]; cbn; intros H; [split; reflexivity|].
  destruct (Nat.eqb_spec (id m) i) as [E|E]; [tauto|].
  destruct IH as [IH1 IH2]; [tauto|]. cbn. now rewrite IH1, IH2.
Qed.

Lemma find_id_some (i : nat) (l : list Material) :
  In i (map id l) ->
  exists found,
    find (fun mat => (id mat =? i)%nat) l = Some found /\
    In found l /\ id found = i.
Proof.
  induction l as [|m l IH]; cbn; intros H; [contradiction|].
  destruct (Nat.eqb_spec (id m) i) as [E|E].
  - exists m. auto.
  - destruct IH as [found [F [Hin Hid]]]; [tauto|]. exists found. auto.
Qed.

Lemma filter_id_length (i : nat) (l : list Material) :
  NoDup (map id l) -> In i (map id l) ->
  length l = S (length (filter (fun material => negb (id material =? i)%nat) l)).
Proof.
  induction l as [|m l IH]; cbn; intros Hnd H; [contradiction|].
  inversion Hnd as [|? ? Hnot Hnd']; subst.
  destruct (Nat.eqb_spec (id m) i) as [E|E]; cbn.
  - subst i. now rewrite (proj2 (find_id_none _ _ Hnot)).
  - rewrite <- IH; [reflexivity | assumption | tauto].
Qed.

Lemma filter_id_In (i : nat) (l : list Material) (m : Material) :
  In m (filter (fun material => negb (id material =? i)%nat) l)
  <-> In m l /\ id m <> i.
Proof.
  rewrite filter_In. split; intros [H1 H2]; split; try assumption.
  - intros E. rewrite E, Nat.eqb_refl in H2. discriminate.
  - apply Nat.eqb_neq in H2. now rewrite H2.
Qed.

Lemma NoDup_map_filter {X Y} (f : X -> Y) (p : X -> bool) (l : list X) :
  NoDup (map f l) -> NoDup (map f (filter p l)).
Proof.
  induction l as [|a l IH]; cbn; intros H; [constructor|].
  inversion H as [|? ? Hnot Hnd]; subst.
  destruct (p a); cbn; [constructor|]; auto.
  intros Hin. apply Hnot. apply in_map_iff in Hin.
  destruct Hin as [b [E Hb]]. apply filter_In in Hb.
  apply in_map_iff. exists b. tauto.
Qed.

(** X4.  [initialize_session_state] sets a key only when it is missing: an
    inventory and an id counter that are there stay as they are, a missing
    one becomes the empty list or 1, nothing is shown, and running it again
    changes nothing. *)
Theorem initialize_session_state_keeps (s : Session.t) :
  exists s',
    initialize_session_state s = (Return tt, s') /\
    Session.materials_list s'
    = Some (match Session.materials_list s with Some l => l | None => [] end) /\
    Session.next_material_id s'
    = Some (match Session.next_material_id s with Some n => n | None => 1%nat end) /\
    Session.messages s' = Session.messages s /\
    initialize_session_state s' = (Return tt, s').
Proof.
  destruct s as [[l|] [n|] msgs]; session_run; eexists;
    repeat split; reflexivity.
Qed.

(** X5.  In a session whose ids are distinct and below the next id,
    [add_material] appends one lot carrying the next id and the preset's
    four contents, moves the next id on by one, shows one success message,
    returns [True], and leaves the ids distinct and below the next id. *)
Theorem add_material_keeps_ids (material_type : string) (stock_kg custom_price : Q)
    (preset_data : Preset.t) (s : Session.t) :
  session_ok s ->
  exists l n s',
    Session.materials_list s = Some l /\
    Session.next_material_id s = Some n /\
    add_material material_type stock_kg custom_price preset_data s
    = (Return true, s') /\
    Session.materials_list s'
    = Some (l ++ [mkMaterial n material_type
                    (content (Preset.Al preset_data) (Preset.Cu preset_data)
                             (Preset.Mg preset_data) (Preset.Zn preset_data))
                    custom_price stock_kg]) /\
    Session.next_material_id s' = Some (n + 1)%nat /\
    Session.messages s'
    = Session.messages s ++ [st_success ("✅ 已成功添加 " ++ material_type)%string] /\
    session_ok s'.
Proof.
  intros [l [n [Hl [Hn [Hnd Hlt]]]]].
  destruct s as [ml nid msgs]. cbn in Hl, Hn. subst ml nid.
  exists l, n. eexists. split; [reflexivity|]. split; [reflexivity|].
  session_run. split; [reflexivity|].
  repeat (split; [reflexivity|]).
  eexists _, _. split; [reflexivity|]. split; [reflexivity|]. split.
  - rewrite map_app. cbn. apply NoDup_app.
    + exact Hnd.
    + repeat constructor. intros [].
    + intros a Ha [<-|[]]. apply in_map_iff in Ha.
      destruct Ha as [m [E Hm]]. rewrite Forall_forall in Hlt.
      specialize (Hlt m Hm). lia.
  - apply Forall_app. split.
    + eapply Forall_impl; [|exact Hlt]. cbn. intros; lia.
    + repeat constructor. cbn. lia.
Qed.

(** X6.  In a session whose ids are distinct and below the next id,
    [remove_material] keeps exactly the lots with another id, in their
    order, and leaves the next id alone.  When the id is in the inventory
    one lot goes and a success message names it; when it is not, the
    inventory is unchanged and an error message is shown. *)
Theorem remove_material_removes (material_id : nat) (s : Session.t) :
  session_ok s ->
  exists l l' s',
    Session.materials_list s = Some l /\
    remove_material material_id s = (Return tt, s') /\
    Session.materials_list s' = Some l' /\
    Session.next_material_id s' = Session.next_material_id s /\
    session_ok s' /\
    (forall material, In material l' <-> In material l /\ id material <> material_id) /\
    (In material_id (map id l) ->
     length l = S (length l') /\
     exists found,
       In found l /\ id found = material_id /\
       Session.messages s'
       = Session.messages s ++ [st_success ("✅ 已移除 " ++ name found)%string]) /\
    (~ In material_id (map id l) ->
     l' = l /\
     Session.messages s'
     = Session.messages s ++ [st_error "❌ 未找到要移除的材料"]).
Proof.
  intros [l [n [Hl [Hn [Hnd Hlt]]]]].
  destruct s as [ml nid msgs]. cbn in Hl, Hn. subst ml nid.
  exists l, (filter (fun material => negb (id material =? material_id)%nat) l).
  assert (Hok : forall msgs',
             session_ok (Session.mk
               (Some (filter (fun material => negb (id material =? material_id)%nat) l))
               (Some n) msgs')).
  { intros msgs'. eexists _, _. split; [reflexivity|]. split; [reflexivity|].
    split; [now apply NoDup_map_filter|].
    rewrite Forall_forall in *. intros m Hm. apply filter_In in Hm. now apply Hlt. }
  destruct (in_dec Nat.eq_dec material_id (map id l)) as [Hin|Hout].
  - destruct (find_id_some _ _ Hin) as [found [Hf [Hfl Hfi]]].
    eexists. split; [reflexivity|]. session_run. rewrite Hf. cbn.
    split; [reflexivity|]. split; [reflexivity|]. split; [reflexivity|].
    split; [apply Hok|].
    split; [intros m; apply filter_id_In|].
    split.
    + intros _. split; [now apply filter_id_length|]. exists found. auto.
    + intros H. contradiction.
  - destruct (find_id_none _ _ Hout) as [Hf Hfilter].
    eexists. split; [reflexivity|]. session_run. rewrite Hf. cbn.
    rewrite Hfilter in Hok |- *.
    split; [reflexivity|]. split; [reflexivity|]. split; [reflexivity|].
    split; [apply Hok|].
    split.
    { intros m. split; [|tauto]. intros H. split; [exact H|].
      intros E. apply Hout. rewrite <- E. now apply in_map. }
    split.
    + intros H. contradiction.
    + intros _. split; reflexivity.
Qed.

(** X7.  In a session whose ids are distinct and below the next id, adding
    a lot and then removing the id it was given restores the inventory;
    the next id stays moved on, so the id is never handed out again. *)
Theorem add_then_remove_restores (material_type : string)
    (stock_kg custom_price : Q) (preset_data : Preset.t) (s : Session.t)
    (n : nat) :
  session_ok s ->
  Session.next_material_id s = Some n ->
  exists s1 s2,
    add_material material_type stock_kg custom_price preset_data s
    = (Return true, s1) /\
    remove_material n s1 = (Return tt, s2) /\
    Session.materials_list s2 = Session.materials_list s /\
    Session.next_material_id s2 = Some (n + 1)%nat.
Proof.
  intros [l [n' [Hl [Hn [Hnd Hlt]]]]] Hn'.
  destruct s as [ml nid msgs]. cbn in Hl, Hn, Hn'. subst ml nid.
  inversion Hn'; subst n'. clear Hn'.
  eexists _, _. split; [session_run; reflexivity|].
  session_run.
  assert (Hfind : find (fun mat => (id mat =? n)%nat)
                       (l ++ [mkMaterial n material_type
                                (content (Preset.Al preset_data) (Preset.Cu preset_data)
                                         (Preset.Mg preset_data) (Preset.Zn preset_data))
                                custom_price stock_kg])
                  = Some (mkMaterial n material_type
                            (content (Preset.Al preset_data) (Preset.Cu preset_data)
                                     (Preset.Mg preset_data) (Preset.Zn preset_data))
                            custom_price stock_kg)).
  { clear Hnd. induction Hlt as [|m l Hm _ IH]; cbn.
    - now rewrite Nat.eqb_refl.
    - replace (id m =? n)%nat with false by (symmetry; apply Nat.eqb_neq; lia).
      exact IH. }
  rewrite Hfind. cbn.
  split; [reflexivity|]. split; [|reflexivity].
  rewrite filter_app, filter_other_ids by exact Hlt.
  cbn. rewrite Nat.eqb_refl. cbn. now rewrite app_nil_r.
Qed.

(** ** The types still on offer *)

Lemma existsb_eqb_In (x : string) (l : list string) :
  existsb (String.eqb x) l = true <-> In x l.
Proof.
  rewrite existsb_exists. split.
  - intros [y [Hy E]]. apply String.eqb_eq in E. now subst.
  - intros H. exists x. split; [assumption | apply String.eqb_refl].
Qed.

Lemma distinctb_NoDup (l : list string) : distinctb l = true -> NoDup l.
Proof.
  induction l as [|x l IH]; cbn; intros H; [constructor|].
  apply andb_true_iff in H. destruct H as [H1 H2].
  constructor; [|now apply IH].
  intros Hin. apply existsb_eqb_In in Hin. rewrite Hin in H1. discriminate.
Qed.

Lemma material_presets_keys_distinct : NoDup (map fst material_presets).
Proof. apply distinctb_NoDup. vm_compute. reflexivity. Qed.

Lemma existsb_name (t : string) (l : list Material) :
  existsb (fun material => String.eqb (name material) t) l
  = existsb (String.eqb t) (map name l).
Proof.
  induction l as [|m l IH]; cbn; [reflexivity|].
  now rewrite IH, String.eqb_sym.
Qed.

Lemma NoDup_filter {X} (p : X -> bool) (l : list X) :
  NoDup l -> NoDup (filter p l).
Proof.
  induction 1 as [|a l Ha _ IH]; cbn; [constructor|].
  destruct (p a); [constructor|]; auto.
  intros Hin. apply filter_In in Hin. tauto.
Qed.

(** X8.  [get_available_material_types] returns, in the order of the preset
    table and without repeats, exactly the preset types for which
    [is_material_already_added] answers [False]; it changes nothing. *)
Theorem available_types_are_not_added (s : Session.t) (l : list Material) :
  Session.materials_list s = Some l ->
  exists available,
    get_available_material_types s = (Return available, s) /\
    NoDup available /\
    (forall t,
       In t available <->
       In t (map fst material_presets) /\
       is_material_already_added t s = (Return false, s)).
Proof.
  intros Hl. destruct s as [ml nid msgs]. cbn in Hl. subst ml.
  eexists. split; [session_run; reflexivity|].
  split; [apply NoDup_filter, material_presets_keys_distinct|].
  intros t. rewrite filter_In. session_run. rewrite existsb_name.
  split.
  - intros [H1 H2]. split; [assumption|].
    destruct (existsb (String.eqb t) (map name l)); [discriminate | reflexivity].
  - intros [H1 H2]. split; [assumption|].
    destruct (existsb (String.eqb t) (map name l)); [discriminate | reflexivity].
Qed.

Lemma filter_without_one (p : string -> bool) (t : string) (l : list string) :
  NoDup l -> In t (filter p l) ->
  length (filter p l)
  = S (length (filter (fun u => p u && negb (String.eqb u t)) l)).
Proof.
  induction 1 as [|a l Ha Hnd IH]; cbn; intros Hin; [contradiction|].
  destruct (p a) eqn:Ep; cbn.
  - destruct (String.eqb_spec a t) as [E|E]; cbn.
    + subst a. f_equal. f_equal. apply filter_ext_in. intros u Hu.
      destruct (String.eqb_spec u t) as [E|E]; [subst; contradiction|].
      cbn. now rewrite andb_true_r.
    + f_equal. apply IH. cbn in Hin. destruct Hin as [Hin|Hin]; [contradiction|assumption].
  - now apply IH.
Qed.

(** X9.  When the types in the inventory are distinct and the type added is
    one [get_available_material_types] offers, the types stay distinct
    after [add_material], and the offer loses exactly that type. *)
Theorem add_available_keeps_types_distinct (material_type : string)
    (stock_kg custom_price : Q) (preset_data : Preset.t) (s : Session.t)
    (l : list Material) (available : list string) :
  session_ok s ->
  Session.materials_list s = Some l ->
  NoDup (map name l) ->
  get_available_material_types s = (Return available, s) ->
  In material_type available ->
  exists s' l' available',
    add_material material_type stock_kg custom_price preset_data s
    = (Return true, s') /\
    Session.materials_list s' = Some l' /\
    NoDup (map name l') /\
    get_available_material_types s' = (Return available', s') /\
    length available = S (length available') /\
    (forall t, In t available' <-> In t available /\ t <> material_type).
Proof.
  intros [l0 [n [Hl0 [Hn _]]]] Hl Hnd Hav Hin.
  destruct s as [ml nid msgs]. cbn in Hl0, Hn, Hl. subst ml nid.
  inversion Hl; subst l0. clear Hl.
  assert (Ea : filter (fun mat_type =>
                         negb (existsb (String.eqb mat_type) (map name l)))
                      (map fst material_presets) = available).
  { unfold get_available_material_types, get_materials_list, bind, ret in Hav.
    cbn [Session.materials_list] in Hav.
    set (keys := map fst material_presets) in *. clearbody keys.
    congruence. }
  clear Hav. rewrite <- Ea in Hin.
  assert (Hnew : ~ In material_type (map name l)).
  { apply filter_In in Hin. destruct Hin as [_ Hin]. intros H.
    apply existsb_eqb_In in H. rewrite H in Hin. discriminate. }
  session_run.
  eexists _, _, _. split; [reflexivity|]. split; [reflexivity|].
  split.
  { rewrite map_app. cbn. apply NoDup_app; [exact Hnd | repeat constructor; intros [] |].
    intros a Ha [<-|[]]. contradiction. }
  split; [reflexivity|].
  assert (Hfilter :
    filter (fun mat_type =>
              negb (existsb (String.eqb mat_type)
                      (map name (l ++ [mkMaterial n material_type
                         (content (Preset.Al preset_data) (Preset.Cu preset_data)
                                  (Preset.Mg preset_data) (Preset.Zn preset_data))
                         custom_price stock_kg]))))
           (map fst material_presets)
    = filter (fun u => negb (existsb (String.eqb u) (map name l))
                       && negb (String.eqb u material_type))
             (map fst material_presets)).
  { apply filter_ext. intros u. rewrite map_app, existsb_app. cbn.
    now rewrite orb_false_r, negb_orb. }
  rewrite Hfilter. split.
  - rewrite <- Ea. apply filter_without_one; [apply material_presets_keys_distinct|].
    exact Hin.
  - intros t. rewrite <- Ea, !filter_In, andb_true_iff.
    destruct (String.eqb_spec t material_type) as [E|E]; cbn; split.
    + intros [_ [_ H]]. discriminate.
    + intros [_ H]. contradiction.
    + tauto.
    + tauto.
Qed.

(** X10.  In a session where the inventory key is missing, the four
    functions that read it raise [AttributeError] and change nothing. *)
Theorem missing_inventory_raises (material_type : string)
    (stock_kg custom_price : Q) (preset_data : Preset.t) (material_id : nat)
    (s : Session.t) :
  Session.materials_list s = None ->
  add_material material_type stock_kg custom_price preset_data s
  = (Raise (Exception "AttributeError"), s) /\
  remove_material material_id s = (Raise (Exception "AttributeError"), s) /\
  is_material_already_added material_type s
  = (Raise (Exception "AttributeError"), s) /\
  get_available_material_types s = (Raise (Exception "AttributeError"), s).
Proof.
  intros Hl. destruct s as [ml [n|] msgs]; cbn in Hl; subst ml;
    repeat split; reflexivity.
Qed.

(** ** The inventory theorems at a concrete session *)

Lemma session_two_ok : session_ok session_two.
Proof.
  eexists _, _. split; [reflexivity|]. split; [reflexivity|]. split.
  - cbn. repeat constructor; cbn; intuition discriminate.
  - repeat constructor; cbn; lia.
Qed.

Lemma add_material_keeps_ids_witness :
  exists l n s',
    Session.materials_list session_two = Some l /\
    Session.next_material_id session_two = Some n /\
    add_material "包装铝箔" 800 13 preset_foil session_two = (Return true, s') /\
    Session.materials_list s'
    = Some (l ++ [mkMaterial n "包装铝箔"
                    (content (Preset.Al preset_foil) (Preset.Cu preset_foil)
                             (Preset.Mg preset_foil) (Preset.Zn preset_foil))
                    13 800]) /\
    Session.next_material_id s' = Some (n + 1)%nat /\
    Session.messages s'
    = Session.messages session_two ++ [st_success "✅ 已成功添加 包装铝箔"] /\
    session_ok s'.
Proof.
  apply (add_material_keeps_ids "包装铝箔" 800 13 preset_foil session_two).
  apply session_two_ok.
Defined.

Lemma remove_material_removes_witness :
  exists s',
    remove_material 1 session_two = (Return tt, s') /\
    Session.materials_list s'
    = Some [mkMaterial 2 "线缆铝芯" (content 99.0 0.3 0.3 0.2) 18 5000] /\
    session_ok s'.
Proof.
  destruct (remove_material_removes 1 session_two session_two_ok)
    as [l [l' [s' [Hl [Hrun [Hl' [_ [Hok _]]]]]]]].
  exists s'. split; [exact Hrun|]. split; [|exact Hok].
  revert Hrun. vm_compute. intros Hrun. inversion Hrun; subst. reflexivity.
Defined.

Lemma add_then_remove_restores_witness :
  exists s1 s2,
    add_material "包装铝箔" 800 13 preset_foil session_two = (Return true, s1) /\
    remove_material 3 s1 = (Return tt, s2) /\
    Session.materials_list s2 = Session.materials_list session_two /\
    Session.next_material_id s2 = Some (3 + 1)%nat.
Proof.
  apply (add_then_remove_restores "包装铝箔" 800 13 preset_foil session_two 3).
  - apply session_two_ok.
  - reflexivity.
Defined.

Lemma available_types_are_not_added_witness :
  exists available,
    get_available_material_types session_two = (Return available, session_two) /\
    NoDup available /\
    (forall t,
       In t available <->
       In t (map fst material_presets) /\
       is_material_already_added t session_two = (Return false, session_two)).
Proof.
  apply (available_types_are_not_added session_two
           [mkMaterial 1 "易拉罐" (content 97.5 0.1 1.0 1.0) 15 5000;
            mkMaterial 2 "线缆铝芯" (content 99.0 0.3 0.3 0.2) 18 5000]).
  reflexivity.
Defined.

Lemma add_available_keeps_types_distinct_witness :
  exists s' l' available',
    add_material "包装铝箔" 800 13 preset_foil session_two = (Return true, s') /\
    Session.materials_list s' = Some l' /\
    NoDup (map name l') /\
    get_available_material_types s' = (Return available', s') /\
    length (filter (fun t => negb (existsb (String.eqb t) ["易拉罐"; "线缆铝芯"]))
                   (map fst material_presets))
    = S (length available') /\
    (forall t,
       In t available' <->
       In t (filter (fun t => negb (existsb (String.eqb t) ["易拉罐"; "线缆铝芯"]))
                    (map fst material_presets)) /\
       t <> "包装铝箔").
Proof.
  apply (add_available_keeps_types_distinct "包装铝箔" 800 13 preset_foil
           session_two
           [mkMaterial 1 "易拉罐" (content 97.5 0.1 1.0 1.0) 15 5000;
            mkMaterial 2 "线缆铝芯" (content 99.0 0.3 0.3 0.2) 18 5000]).
  - apply session_two_ok.
  - reflexivity.
  - cbn. repeat constructor; cbn; intuition discriminate.
  - reflexivity.
  - vm_compute. do 8 right. left. reflexivity.
Defined.

Lemma missing_inventory_raises_witness :
  add_material "包装铝箔" 800 13 preset_foil Session.fresh
  = (Raise (Exception "AttributeError"), Session.fresh) /\
  remove_material 1 Session.fresh
  = (Raise (Exception "AttributeError"), Session.fresh) /\
  is_material_already_added "包装铝箔" Session.fresh
  = (Raise (Exception "AttributeError"), Session.fresh) /\
  get_available_material_types Session.fresh
  = (Raise (Exception "AttributeError"), Session.fresh).
Proof.
  apply (missing_inventory_raises "包装铝箔" 800 13 preset_foil 1 Session.fresh).
  reflexivity.
Defined.



(** * Orders that cannot be met, and weights out of step *)

Lemma infeasible_fails (linprog : LP.t -> outcome OptimizeResult.t)
    (flag : bool) (s : Env.t) :
  solver_sound linprog ->
  (forall x, ~ feasible (problem (Env.materials_data s)
                                 (Env.order_requirements s) flag) x) ->
  exists lp s0 r s',
    build_problem flag s = (Return lp, s0) /\
    (forall x, ~ feasible lp x) /\
    optimize_alloy linprog flag s = (Return r, s') /\
    success r = false.
Proof.
  intros Hs Hno.
  destruct (build_problem_returns flag s) as [s0 H].
  destruct (optimize_alloy_run linprog flag s) as [s' [Hr _]].
  eexists _, _, _, _. split; [exact H|]. split; [exact Hno|].
  split; [exact Hr|]. now apply report_infeasible.
Qed.

Lemma stock_of_cons (m : Material) (md : list Material) (i : nat) :
  stock_of (m :: md) (S i) = stock_of md i.
Proof. reflexivity. Qed.

Lemma total_le_stock (md : list Material) (x : list Q) :
  length x = length md ->
  (forall i, (i < length md)%nat -> nth i x 0 <= stock_of md i) ->
  total x <= total (map stock md).
Proof.
  revert x. induction md as [|m md IH]; intros [|x0 x] Hlen H; cbn in *;
    try discriminate Hlen.
  - apply Qle_refl.
  - apply Qplus_le_compat.
    + apply (H 0%nat). lia.
    + apply IH; [lia|]. intros i Hi. apply (H (S i)). lia.
Qed.

Lemma element_mass_le (md : list Material) (x : list Q) (e : element) (b : Q) :
  length x = length md ->
  Forall (fun v => 0 <= v) x ->
  Forall (fun material => element_content material e <= b) md ->
  element_mass md x e <= b / 100 * total x.
Proof.
  revert x. induction md as [|m md IH]; intros [|x0 x] Hlen Hx Hb; cbn in *;
    try discriminate Hlen.
  - setoid_replace (b / 100 * 0) with 0 by field. apply Qle_refl.
  - inversion Hx as [|? ? Hx0 Hx']; subst. inversion Hb as [|? ? Hb0 Hb']; subst.
    specialize (IH x ltac:(lia) Hx' Hb').
    assert (H0 : element_content m e * x0 <= b * x0)
      by (apply Qmult_le_compat_r; assumption).
    setoid_replace (x0 * element_content m e / 100)
      with ((element_content m e * x0) * (1 # 100)) by field.
    setoid_replace (b / 100 * (x0 + total x))
      with ((b * x0) * (1 # 100) + b / 100 * total x) by field.
    set (u := element_content m e * x0) in *. set (v := b * x0) in *.
    set (t := b / 100 * total x) in *. lra.
Qed.

Lemma element_mass_ge (md : list Material) (x : list Q) (e : element) (b : Q) :
  length x = length md ->
  Forall (fun v => 0 <= v) x ->
  Forall (fun material => b <= element_content material e) md ->
  b / 100 * total x <= element_mass md x e.
Proof.
  revert x. induction md as [|m md IH]; intros [|x0 x] Hlen Hx Hb; cbn in *;
    try discriminate Hlen.
  - setoid_replace (b / 100 * 0) with 0 by field. apply Qle_refl.
  - inversion Hx as [|? ? Hx0 Hx']; subst. inversion Hb as [|? ? Hb0 Hb']; subst.
    specialize (IH x ltac:(lia) Hx' Hb').
    assert (H0 : b * x0 <= element_content m e * x0)
      by (apply Qmult_le_compat_r; assumption).
    setoid_replace (x0 * element_content m e / 100)
      with ((element_content m e * x0) * (1 # 100)) by field.
    setoid_replace (b / 100 * (x0 + total x))
      with ((b * x0) * (1 # 100) + b / 100 * total x) by field.
    set (u := element_content m e * x0) in *. set (v := b * x0) in *.
    set (t := b / 100 * total x) in *. lra.
Qed.

Lemma scale_lt (a b W : Q) : 0 < W -> a < b -> a / 100 * W < b / 100 * W.
Proof.
  intros HW Hab.
  setoid_replace (a / 100 * W) with (a * (W * (1 # 100))) by field.
  setoid_replace (b / 100 * W) with (b * (W * (1 # 100))) by field.
  apply Qmult_lt_compat_r; [|exact Hab]. lra.
Qed.

(** X11.  With no lots and an order of non-zero total weight the one
    equality row has no coefficient and cannot hold, so with a sound solver
    the result is a failure. *)
Theorem no_lots_fails (linprog : LP.t -> outcome OptimizeResult.t)
    (flag : bool) (s : Env.t) :
  solver_sound linprog ->
  Env.materials_data s = [] ->
  ~ total_weight (Env.order_requirements s) == 0 ->
  exists lp s0 r s',
    build_problem flag s = (Return lp, s0) /\
    LP.A_eq lp = [[]] /\
    (forall x, ~ feasible lp x) /\
    optimize_alloy linprog flag s = (Return r, s') /\
    success r = false.
Proof.
  intros Hs Hmd HW.
  destruct (infeasible_fails linprog flag s Hs) as [lp [s0 [r [s' [H1 [H2 [H3 H4]]]]]]].
  { rewrite Hmd. intros x Hx. apply feasible_problem in Hx.
    destruct Hx as [Hlen [Htot _]]. destruct x; [|discriminate Hlen].
    cbn in Htot. apply HW. now rewrite <- Htot. }
  exists lp, s0, r, s'. split; [exact H1|]. split; [|now repeat split].
  destruct (build_problem_returns flag s) as [s1 H]. rewrite H in H1.
  inversion H1; subst lp. now rewrite Hmd.
Qed.

(** X12.  When the stocks of all lots together are less than the order's
    total weight, no vector satisfies the constraints, and with a sound
    solver the result is a failure. *)
Theorem insufficient_stock_fails (linprog : LP.t -> outcome OptimizeResult.t)
    (flag : bool) (s : Env.t) :
  solver_sound linprog ->
  sum (map stock (Env.materials_data s)) < total_weight (Env.order_requirements s) ->
  exists lp s0 r s',
    build_problem flag s = (Return lp, s0) /\
    (forall x, ~ feasible lp x) /\
    optimize_alloy linprog flag s = (Return r, s') /\
    success r = false.
Proof.
  intros Hs Hlt. apply infeasible_fails; [exact Hs|].
  intros x Hx. apply feasible_problem in Hx.
  destruct Hx as [Hlen [Htot [_ [Hstock _]]]].
  pose proof (total_le_stock _ _ Hlen Hstock) as Hle.
  rewrite sum_total in Hlt. rewrite Htot in Hle. lra.
Qed.

(** X13.  When every lot holds less of some element than the target minus
    0.5, or every lot holds more than the target plus 0.5, no blend of
    positive total weight is within the band, and with a sound solver the
    result is a failure. *)
Theorem lots_outside_band_fail (linprog : LP.t -> outcome OptimizeResult.t)
    (flag : bool) (s : Env.t) (e : element) (b : Q) :
  solver_sound linprog ->
  0 < total_weight (Env.order_requirements s) ->
  (Forall (fun material => element_content material e <= b)
          (Env.materials_data s) /\
   b < target_content (Env.order_requirements s) e - 0.5) \/
  (Forall (fun material => b <= element_content material e)
          (Env.materials_data s) /\
   target_content (Env.order_requirements s) e + 0.5 < b) ->
  exists lp s0 r s',
    build_problem flag s = (Return lp, s0) /\
    (forall x, ~ feasible lp x) /\
    optimize_alloy linprog flag s = (Return r, s') /\
    success r = false.
Proof.
  intros Hs HW Hout. apply infeasible_fails; [exact Hs|].
  intros x Hx. apply feasible_problem in Hx.
  destruct Hx as [Hlen [Htot [Hband [_ [_ Hpos]]]]].
  destruct (Hband e) as [Hlo Hhi].
  destruct Hout as [[Hall Hb] | [Hall Hb]].
  - pose proof (element_mass_le _ _ e b Hlen Hpos Hall) as Hm.
    rewrite Htot in Hm.
    pose proof (scale_lt _ _ _ HW Hb) as Hsc.
    eapply Qlt_irrefl. eapply Qle_lt_trans; [|exact Hsc].
    eapply Qle_trans; [exact Hlo | exact Hm].
  - pose proof (element_mass_ge _ _ e b Hlen Hpos Hall) as Hm.
    rewrite Htot in Hm.
    pose proof (scale_lt _ _ _ HW Hb) as Hsc.
    eapply Qlt_irrefl. eapply Qlt_le_trans; [exact Hsc|].
    eapply Qle_trans; [exact Hm | exact Hhi].
Qed.

(** X16.  Every vector that satisfies the constraints built with the cap on
    satisfies those built with the cap off: turning the cap off never makes
    an order that can be met one that cannot. *)
Theorem cap_off_is_weaker (s s0 s1 : Env.t) (lp0 lp1 : LP.t) (x : list Q) :
  build_problem false s = (Return lp0, s0) ->
  build_problem true s = (Return lp1, s1) ->
  feasible lp1 x ->
  feasible lp0 x.
Proof.
  intros H0 H1 Hx.
  destruct (build_problem_returns false s) as [t0 E0]. rewrite E0 in H0.
  destruct (build_problem_returns true s) as [t1 E1]. rewrite E1 in H1.
  inversion H0; subst lp0. inversion H1; subst lp1. clear H0 H1 E0 E1.
  unfold feasible, problem in *.
  cbn [LP.c LP.A_eq LP.b_eq LP.A_ub LP.b_ub LP.bounds capped map] in *.
  destruct Hx as [Hlen [Heq [Hub Hbd]]].
  repeat split; try assumption.
  rewrite !app_nil_r. rewrite !app_assoc in Hub.
  apply Forall2_app_split in Hub; [tauto|].
  rewrite !length_app, !length_map, length_seq.
  unfold band_rows, band_rhs, elements. reflexivity.
Qed.

Lemma for_each_single {S X} (x : X) (body : X -> M S unit) (s s1 : S) :
  for_each [x] body s = (Return tt, s1) -> body x s = (Return tt, s1).
Proof.
  cbn [for_each]. unfold bind, ret.
  destruct (body x s) as [[[]|e] s2]; intros H; inversion H; reflexivity.
Qed.

Lemma accumulate_loop_raises (l : list Material) (k : nat)
    (md : list Material) (ws : list Q) (acc : element -> Q) :
  (k <= length ws)%nat -> (length ws < k + length l)%nat ->
  exists acc',
    for_each (combine (seq k (length l)) l) (fun '(i, material) =>
      for_each elements (fun element =>
        weights <- read CEnv.weights ;;
        w <- getitem weights i ;;
        let element_weight := w * element_content material element / 100 in
        v <- final_comp_getitem element ;;
        final_comp_setitem element (v + element_weight)))
      (CEnv.mk md ws (dict_of acc))
    = (Raise IndexError, CEnv.mk md ws (dict_of acc')).
Proof.
  revert k acc. induction l as [|m l IH]; intros k acc Hk Hlen;
    cbn [length] in Hlen; [lia|].
  cbn [length seq combine]. rewrite for_each_cons.
  destruct (Nat.eq_dec k (length ws)) as [E|E].
  - exists acc. apply bind_raises.
    unfold elements. rewrite for_each_cons. apply bind_raises.
    rewrite bind_read. cbv beta. cbn [CEnv.weights].
    unfold getitem.
    replace (nth_error ws k) with (@None Q)
      by (symmetry; apply nth_error_None; lia).
    reflexivity.
  - pose proof (accumulate_loop [m] k md ws acc) as H1.
    cbn [length seq combine] in H1. specialize (H1 ltac:(lia)).
    apply for_each_single in H1.
    erewrite bind_returns by exact H1.
    apply IH; lia.
Qed.

(** X14.  When the weights are fewer than the lots and do not add up to
    zero, [calculate_final_composition] raises [IndexError]; its arguments
    are left as they were. *)
Theorem short_weights_raise (md : list Material) (ws : list Q) (fc : dict) :
  (length ws < length md)%nat ->
  ~ sum ws == 0 ->
  exists fc',
    calculate_final_composition (CEnv.mk md ws fc)
    = (Raise IndexError, CEnv.mk md ws fc').
Proof.
  intros Hlen Hsum.
  assert (Hb : Qeq_bool (sum ws) 0 = false).
  { destruct (Qeq_bool (sum ws) 0) eqn:E; [|reflexivity].
    apply Qeq_bool_iff in E. contradiction. }
  destruct (accumulate_loop_raises md 0 md ws (fun _ => 0)) as [acc' H];
    [lia | lia |].
  exists (dict_of acc'). unfold calculate_final_composition.
  rewrite bind_read. cbv beta zeta. cbn [CEnv.weights]. rewrite Hb.
  rewrite bind_write. cbv beta. unfold CEnv.set_final_comp.
  cbn [CEnv.materials_data CEnv.weights CEnv.final_comp].
  rewrite bind_read. cbv beta. cbn [CEnv.materials_data].
  unfold enumerate.
  change (map (fun element0 : element => (element0, 0)) elements)
    with (dict_of (fun _ => 0)).
  apply bind_raises. exact H.
Qed.

Lemma element_mass_firstn (md : list Material) (ws : list Q) (e : element) :
  element_mass md (firstn (length md) ws) e = element_mass md ws e.
Proof.
  revert ws. induction md as [|m md IH]; intros [|w ws]; cbn; try reflexivity.
  now rewrite IH.
Qed.

(** X15.  When the weights are more than the lots (and do not add up to
    zero) [calculate_final_composition] raises nothing: the surplus weights
    carry no element mass but count in the total the masses are divided by. *)
Theorem surplus_weights_dilute (md : list Material) (ws : list Q) (fc : dict) :
  (length md <= length ws)%nat ->
  ~ sum ws == 0 ->
  exists d cs',
    calculate_final_composition (CEnv.mk md ws fc) = (Return (Some d), cs') /\
    forall e, exists v,
      dict_get d e = Some v /\
      v == 100 * element_mass md (firstn (length md) ws) e / sum ws.
Proof.
  intros Hlen Hsum.
  assert (Hb : Qeq_bool (sum ws) 0 = false).
  { destruct (Qeq_bool (sum ws) 0) eqn:E; [|reflexivity].
    apply Qeq_bool_iff in E. contradiction. }
  eexists _, _. split.
  - apply calculate_final_composition_run; [exact Hlen | exact Hb].
  - intros e. exists (accumulate md ws (fun _ => 0) e / sum ws * 100).
    split; [destruct e; reflexivity|].
    rewrite element_mass_firstn, accumulate_mass. field. exact Hsum.
Qed.

(** * The order's validation *)

Lemma Qle_bool_false (a b : Q) : Qle_bool a b = false <-> b < a.
Proof.
  split.
  - intros H. apply Qnot_le_lt. intros Hle. apply Qle_bool_iff in Hle. congruence.
  - intros H. destruct (Qle_bool a b) eqn:E; [|reflexivity].
    apply Qle_bool_iff in E. exfalso. exact (Qlt_not_le _ _ H E).
Qed.

Lemma append_if_nil (b : bool) (l : list string) (x : string) :
  (if b then l ++ [x] else l) = [] <-> b = false /\ l = [].
Proof.
  destruct b.
  - split; [destruct l; discriminate | intros [H _]; discriminate H].
  - tauto.
Qed.

Lemma range_check (lo hi v : Q) :
  negb (Qle_bool lo v && Qle_bool v hi) = false <-> lo <= v /\ v <= hi.
Proof.
  rewrite negb_false_iff, andb_true_iff, !Qle_bool_iff. reflexivity.
Qed.

(** X17.  [validate_order_inputs] returns no error exactly when the weight
    is positive, aluminium is between 85 and 99.9, each of copper,
    magnesium and zinc is between 0 and 10, and the four add up to at most
    100. *)
Theorem validate_order_inputs_accepts (fmt : Q -> string)
    (weight al cu mg zn : Q) :
  validate_order_inputs fmt weight al cu mg zn = [] <->
  0 < weight /\
  (85 <= al /\ al <= 99.9) /\
  (0 <= cu /\ cu <= 10) /\
  (0 <= mg /\ mg <= 10) /\
  (0 <= zn /\ zn <= 10) /\
  al + cu + mg + zn <= 100.
Proof.
  unfold validate_order_inputs, Qgt_bool. cbv zeta.
  rewrite !append_if_nil, !range_check, negb_false_iff, Qle_bool_iff,
    Qle_bool_false.
  split.
  - intros [H6 [[H5a H5b] [[H4a H4b] [[H3a H3b] [[H2a H2b] [H1 _]]]]]].
    repeat split; lra.
  - intros [H1 [[H2a H2b] [[H3a H3b] [[H4a H4b] [[H5a H5b] H6]]]]].
    repeat split; first [reflexivity | lra].
Qed.

(** X18.  For an order [validate_order_inputs] accepts and a sound solver,
    the weights of a successful result of [optimize_alloy] add up to the
    order's weight, and [calculate_final_composition] on them returns a
    dictionary over the four elements (never [None]), each value within
    0.5 of its target. *)
Theorem validated_success_has_composition (fmt : Q -> string)
    (linprog : LP.t -> outcome OptimizeResult.t) (flag : bool)
    (s s' : Env.t) (cost : Q) (ws : list Q) (msg : string) (fc : dict) :
  solver_sound linprog ->
  validate_order_inputs fmt
    (total_weight (Env.order_requirements s))
    (target_content (Env.order_requirements s) Al)
    (target_content (Env.order_requirements s) Cu)
    (target_content (Env.order_requirements s) Mg)
    (target_content (Env.order_requirements s) Zn) = [] ->
  optimize_alloy linprog flag s = (Return (Success cost ws msg), s') ->
  sum ws == total_weight (Env.order_requirements s) /\
  exists d cs',
    calculate_final_composition (CEnv.mk (Env.materials_data s) ws fc)
    = (Return (Some d), cs') /\
    map fst d = elements /\
    within_band d (Env.order_requirements s) 0.5.
Proof.
  intros Hs Hv Hrun.
  apply validate_order_inputs_accepts in Hv. destruct Hv as [HW _].
  destruct (optimize_alloy_run linprog flag s) as [s1 [Hr _]].
  rewrite Hr in Hrun. inversion Hrun as [[Hrep Hst]].
  apply report_success in Hrep. destruct Hrep as [r [Er [Esucc ->]]].
  pose proof (Hs _ _ Er Esucc) as Hx.
  apply feasible_problem in Hx.
  destruct Hx as [Hlen [Htot [Hband _]]].
  set (md := Env.materials_data s) in *.
  set (ord := Env.order_requirements s) in *.
  set (x := OptimizeResult.x r) in *.
  assert (Hsum : sum x == total_weight ord) by now rewrite sum_total.
  split; [exact Hsum|].
  assert (Hb : Qeq_bool (sum x) 0 = false).
  { destruct (Qeq_bool (sum x) 0) eqn:E; [|reflexivity].
    apply Qeq_bool_iff in E. rewrite E in Hsum. lra. }
  eexists _, _. split.
  - apply calculate_final_composition_run; [lia | exact Hb].
  - split; [reflexivity|].
    intros e. exists (accumulate md x (fun _ => 0) e / sum x * 100).
    split; [destruct e; reflexivity|].
    assert (G : accumulate md x (fun _ => 0) e / sum x * 100
                == element_mass md x e * 100 / total_weight ord).
    { rewrite accumulate_mass, Hsum. field. lra. }
    destruct (Hband e) as [Hlo Hhi].
    rewrite G. now apply band_arithmetic.
Qed.

(** ** These theorems at concrete inputs *)

Lemma no_lots_fails_witness :
  exists lp s0 r s',
    build_problem true (Env.init [] order_AB) = (Return lp, s0) /\
    LP.A_eq lp = [[]] /\
    (forall x, ~ feasible lp x) /\
    optimize_alloy (candidate_solver [[]; [1000]]) true (Env.init [] order_AB)
    = (Return r, s') /\
    success r = false.
Proof.
  apply (no_lots_fails (candidate_solver [[]; [1000]]) true (Env.init [] order_AB)).
  - apply candidate_solver_sound.
  - reflexivity.
  - intros H. vm_compute in H. discriminate H.
Defined.

Lemma insufficient_stock_fails_witness :
  exists lp s0 r s',
    build_problem false (Env.init [lot_A; lot_B] order_big) = (Return lp, s0) /\
    (forall x, ~ feasible lp x) /\
    optimize_alloy (candidate_solver [[10000; 10000]; [5000; 5000]]) false
                   (Env.init [lot_A; lot_B] order_big)
    = (Return r, s') /\
    success r = false.
Proof.
  apply (insufficient_stock_fails (candidate_solver [[10000; 10000]; [5000; 5000]])
           false (Env.init [lot_A; lot_B] order_big)).
  - apply candidate_solver_sound.
  - reflexivity.
Defined.

Lemma lots_outside_band_fail_witness :
  exists lp s0 r s',
    build_problem false (Env.init [lot_A; lot_B] order_low) = (Return lp, s0) /\
    (forall x, ~ feasible lp x) /\
    optimize_alloy (candidate_solver [[1000; 0]; [0; 1000]]) false
                   (Env.init [lot_A; lot_B] order_low)
    = (Return r, s') /\
    success r = false.
Proof.
  apply (lots_outside_band_fail (candidate_solver [[1000; 0]; [0; 1000]]) false
           (Env.init [lot_A; lot_B] order_low) Al 97.5).
  - apply candidate_solver_sound.
  - reflexivity.
  - right. split.
    + repeat constructor; cbn; discriminate.
    + reflexivity.
Defined.

Lemma short_weights_raise_witness :
  exists fc',
    calculate_final_composition (CEnv.mk [lot_A; lot_B] [1000] [])
    = (Raise IndexError, CEnv.mk [lot_A; lot_B] [1000] fc').
Proof.
  apply (short_weights_raise [lot_A; lot_B] [1000] []).
  - cbn. lia.
  - intros H. vm_compute in H. discriminate H.
Defined.

Lemma surplus_weights_dilute_witness :
  exists d cs',
    calculate_final_composition (CEnv.mk [lot_A] [500; 500] [])
    = (Return (Some d), cs') /\
    forall e, exists v,
      dict_get d e = Some v /\
      v == 100 * element_mass [lot_A] (firstn 1 [500; 500]) e / sum [500; 500].
Proof.
  apply (surplus_weights_dilute [lot_A] [500; 500] []).
  - cbn. lia.
  - intros H. vm_compute in H. discriminate H.
Defined.

Lemma cap_off_is_weaker_witness :
  feasible (problem [lot_A; lot_B; lot_C] order_AB true) [300; 400; 300] /\
  feasible (problem [lot_A; lot_B; lot_C] order_AB false) [300; 400; 300].
Proof.
  assert (H : feasible (problem [lot_A; lot_B; lot_C] order_AB true) [300; 400; 300])
    by (apply feasibleb_sound; vm_compute; reflexivity).
  split; [exact H|].
  apply (cap_off_is_weaker (Env.init [lot_A; lot_B; lot_C] order_AB)
           (snd (build_problem false (Env.init [lot_A; lot_B; lot_C] order_AB)))
           (snd (build_problem true (Env.init [lot_A; lot_B; lot_C] order_AB)))
           (problem [lot_A; lot_B; lot_C] order_AB false)
           (problem [lot_A; lot_B; lot_C] order_AB true) [300; 400; 300]).
  - vm_compute. reflexivity.
  - vm_compute. reflexivity.
  - exact H.
Defined.

Lemma validated_success_has_composition_witness :
  validate_order_inputs (fun _ => "") 1000 98 0.2 0.5 0.5 = [] /\
  sum [1000; 0] == 1000 /\
  exists d cs',
    calculate_final_composition (CEnv.mk [lot_A; lot_B] [1000; 0] [])
    = (Return (Some d), cs') /\
    map fst d = elements /\
    within_band d order_AB 0.5.
Proof.
  split; [vm_compute; reflexivity|].
  apply (validated_success_has_composition (fun _ => "")
           (candidate_solver [[1000; 0]]) false
           (Env.init [lot_A; lot_B] order_AB)
           (snd (optimize_alloy (candidate_solver [[1000; 0]]) false
                   (Env.init [lot_A; lot_B] order_AB)))
           15000 [1000; 0] "优化成功" []).
  - apply candidate_solver_sound.
  - vm_compute. reflexivity.
  - vm_compute. reflexivity.
Defined.

(** ** Runs of the session functions and the validation *)

Example run_validate_all_wrong :
  length (validate_order_inputs (fun _ => "120.0") 0 80 11 11 18) = 6%nat.
Proof. vm_compute. reflexivity. Qed.

Example run_available_after_two :
  fst (get_available_material_types session_two)
  = Return (skipn 2 (map fst material_presets)).
Proof. vm_compute. reflexivity. Qed.

Example run_initialize_fresh :
  initialize_session_state Session.fresh
  = (Return tt, Session.mk (Some []) (Some 1%nat) []).
Proof. reflexivity. Qed.
